(** * Task-flow canvas, persistence mapping and collaboration sync

    A shallow embedding of
    - [src/components/ProjectFlowDisplay.tsx]: the permission gate, the
      connector geometry pass and the pointer gesture handlers;
    - [src/services/projectService.ts]: the mapping of stored project rows
      to [ProjectData];
    - [src/services/collaborationService.ts]: [getUserRole] and
      [subscribeToProjectUpdates];
    - further on, the remaining effects of the display, the visibility and
      invitation methods of the two services, [accept_project_invitation]
      of the migration and the dialog that calls it.

    Conventions.  A JavaScript number is the rational ([Q]) it stands for:
    every number the handlers read is a finite pixel measure.  The
    arithmetic of the code is that of IEEE 754 doubles: [+], [-] and [/]
    are [jadd], [jsub] and [jdiv], the exact result rounded to the nearest
    double, ties to even; comparisons, [Math.max] and [Math.min] are exact.
    Results beyond the largest double, which the code would see as
    [Infinity], are outside the model.  A value that may be [null] or
    [undefined] is an
    [option].  The React component is a record [View] of its props, state
    hooks and refs; a handler is a function on [View].  Calls to the parent's
    callbacks are appended to the [commits] log of the view, oldest first. *)

From Stdlib Require Import QArith Qminmax Qreduction.
From stdpp Require Import base strings list gmap.

Open Scope string_scope.
Open Scope Q_scope.
Open Scope list_scope.

(** ** Data model *)

Record Point := { px : Q; py : Q }.

(** [ProjectTask] of [../types]: the fields the flow display reads.  The
    identifier field is [id] in the source. *)
Record ProjectTask := {
  task_id : string;
  title : string;
  position : option Point;
  nextTaskIds : option (list string)
}.

(** [ConnectorInfo]; its [id], [from] and [to] fields carry a prefix here. *)
Record ConnectorInfo := {
  conn_id : string;
  conn_from : Point;
  conn_to : Point;
  sourceId : string;
  targetId : string
}.

Record ConnectingState := { fromId : string; fromPos : Point }.

(** What the handlers read from a mounted [div]: [getBoundingClientRect()]
    and the offset and scroll measures. *)
Record DOMRect := {
  rect_left : Q; rect_top : Q; rect_width : Q; rect_height : Q
}.

Record HTMLDivElement := {
  getBoundingClientRect : DOMRect;
  offsetWidth : Q; offsetHeight : Q;
  scrollLeft : Q; scrollTop : Q;
  scrollWidth : Q; scrollHeight : Q
}.

(** The part of a [React.DragEvent] or [React.MouseEvent] a handler reads
    ([clientX], [clientY]) or writes ([preventDefault], [dataTransfer]). *)
Record PointerEvent := {
  clientX : Q; clientY : Q;
  defaultPrevented : bool;
  effectAllowed : option string;
  dropEffect : option string
}.

(** A call to one of the parent's graph-store callbacks. *)
Inductive StoreCall :=
| UpdateTaskPosition (taskId : string) (pos : Point)
| UpdateTaskConnections (sourceTaskId : string) (next : list string).

(** A timer set with [setTimeout(calculateConnectors, delay)]. *)
Record Timer := { delay : nat }.

(** The component: props ([tasks]), state hooks ([userRole],
    [connectingState], [mousePos], [connectors], [taskCardRefs]) and refs
    ([flowContainerRef], [draggedTaskIdRef], [dragOffsetRef]).  The value
    stored for a key of [taskCardRefs] is the [current] of that ref. *)
Record View := {
  tasks : list ProjectTask;
  userRole : string;
  connectingState : option ConnectingState;
  mousePos : Point;
  connectors : list ConnectorInfo;
  flowContainerRef : option HTMLDivElement;
  taskCardRefs : gmap string (option HTMLDivElement);
  draggedTaskIdRef : option string;
  dragOffsetRef : Point;
  timers : list Timer;
  commits : list StoreCall
}.

(** ** Field updates *)

Definition setNextTaskIds (next : list string) (t : ProjectTask) : ProjectTask :=
  {| task_id := task_id t; title := title t; position := position t;
     nextTaskIds := Some next |}.

Definition setPosition (p : Point) (t : ProjectTask) : ProjectTask :=
  {| task_id := task_id t; title := title t; position := Some p;
     nextTaskIds := nextTaskIds t |}.

Definition withStore (ts : list ProjectTask) (c : StoreCall) (v : View) : View :=
  {| tasks := ts; userRole := userRole v;
     connectingState := connectingState v; mousePos := mousePos v;
     connectors := connectors v; flowContainerRef := flowContainerRef v;
     taskCardRefs := taskCardRefs v; draggedTaskIdRef := draggedTaskIdRef v;
     dragOffsetRef := dragOffsetRef v; timers := timers v;
     commits := commits v ++ [c] |}.

Definition setConnectingState (cs : option ConnectingState) (v : View) : View :=
  {| tasks := tasks v; userRole := userRole v;
     connectingState := cs; mousePos := mousePos v;
     connectors := connectors v; flowContainerRef := flowContainerRef v;
     taskCardRefs := taskCardRefs v; draggedTaskIdRef := draggedTaskIdRef v;
     dragOffsetRef := dragOffsetRef v; timers := timers v;
     commits := commits v |}.

Definition setMousePos (p : Point) (v : View) : View :=
  {| tasks := tasks v; userRole := userRole v;
     connectingState := connectingState v; mousePos := p;
     connectors := connectors v; flowContainerRef := flowContainerRef v;
     taskCardRefs := taskCardRefs v; draggedTaskIdRef := draggedTaskIdRef v;
     dragOffsetRef := dragOffsetRef v; timers := timers v;
     commits := commits v |}.

Definition setConnectors (cs : list ConnectorInfo) (v : View) : View :=
  {| tasks := tasks v; userRole := userRole v;
     connectingState := connectingState v; mousePos := mousePos v;
     connectors := cs; flowContainerRef := flowContainerRef v;
     taskCardRefs := taskCardRefs v; draggedTaskIdRef := draggedTaskIdRef v;
     dragOffsetRef := dragOffsetRef v; timers := timers v;
     commits := commits v |}.

Definition setDragged (d : option string) (off : Point) (v : View) : View :=
  {| tasks := tasks v; userRole := userRole v;
     connectingState := connectingState v; mousePos := mousePos v;
     connectors := connectors v; flowContainerRef := flowContainerRef v;
     taskCardRefs := taskCardRefs v; draggedTaskIdRef := d;
     dragOffsetRef := off; timers := timers v;
     commits := commits v |}.

Definition setTimeout (ms : nat) (v : View) : View :=
  {| tasks := tasks v; userRole := userRole v;
     connectingState := connectingState v; mousePos := mousePos v;
     connectors := connectors v; flowContainerRef := flowContainerRef v;
     taskCardRefs := taskCardRefs v; draggedTaskIdRef := draggedTaskIdRef v;
     dragOffsetRef := dragOffsetRef v; timers := timers v ++ [{| delay := ms |}];
     commits := commits v |}.

Definition preventDefault (e : PointerEvent) : PointerEvent :=
  {| clientX := clientX e; clientY := clientY e; defaultPrevented := true;
     effectAllowed := effectAllowed e; dropEffect := dropEffect e |}.

Definition setEffectAllowed (s : string) (e : PointerEvent) : PointerEvent :=
  {| clientX := clientX e; clientY := clientY e;
     defaultPrevented := defaultPrevented e;
     effectAllowed := Some s; dropEffect := dropEffect e |}.

Definition setDropEffect (s : string) (e : PointerEvent) : PointerEvent :=
  {| clientX := clientX e; clientY := clientY e;
     defaultPrevented := defaultPrevented e;
     effectAllowed := effectAllowed e; dropEffect := Some s |}.

(** ** JavaScript helpers *)

(** Rounding of integers: [n / d] to the nearest integer, ties to even
    ([d] positive). *)
Definition round_half_even (n d : Z) : Z :=
  let q := (n / d)%Z in
  match (2 * (n mod d) ?= d)%Z with
  | Lt => q
  | Gt => (q + 1)%Z
  | Eq => if Z.even q then q else (q + 1)%Z
  end.

(** The exponent of [n / d], that is [floor (log2 (n / d))], for positive
    [n] and [d]. *)
Definition ilog2 (n d : Z) : Z :=
  let k := (Z.log2 n - Z.log2 d)%Z in
  if (if (0 <=? k)%Z then (d * 2 ^ k <=? n)%Z else (d <=? n * 2 ^ (- k))%Z)
  then k else (k - 1)%Z.

(** The double nearest to the positive rational [n / d]: a 53-bit
    significand times a power of two not below [2 ^ -1074]. *)
Definition round_pos (n d : Z) : Q :=
  let e := Z.max (ilog2 n d - 52) (-1074) in
  if (0 <=? e)%Z
  then inject_Z (round_half_even n (d * 2 ^ e) * 2 ^ e)
  else round_half_even (n * 2 ^ (- e)) d # Z.to_pos (2 ^ (- e)).

(** The double nearest to [x], in lowest terms. *)
Definition fl (x : Q) : Q :=
  Qred match Qnum x with
       | Z0 => 0
       | Zpos _ => round_pos (Qnum x) (Zpos (Qden x))
       | Zneg _ => - round_pos (- Qnum x) (Zpos (Qden x))
       end.

(** [x + y], [x - y] and [x / y] of the code. *)
Definition jadd (x y : Q) : Q := fl (x + y).
Definition jsub (x y : Q) : Q := fl (x - y).
Definition jdiv (x y : Q) : Q := fl (x / y).

(** [x || d] on numbers: [0] is falsy. *)
Definition num_or (x d : Q) : Q := if Qeq_bool x 0 then d else x.

(** [xs || []]. *)
Definition list_or_empty {A} (xs : option (list A)) : list A := default [] xs.

(** [!s] is false exactly for a non-empty string. *)
Definition truthy (s : option string) : option string :=
  match s with
  | Some "" => None
  | other => other
  end.

(** [tasks.find(t => t.id === k)]. *)
Definition findTask (k : string) (ts : list ProjectTask) : option ProjectTask :=
  find (fun t => bool_decide (task_id t = k)) ts.

(** [Array.from(new Set(xs))]: a [Set] keeps the first insertion of each
    value, in insertion order. *)
Definition set_add (acc : list string) (x : string) : list string :=
  if bool_decide (x ∈ acc) then acc else acc ++ [x].

Definition array_from_set (xs : list string) : list string :=
  fold_left set_add xs [].

(** ** Graph store callbacks of the parent

    The parent component ([App]) that owns the task list is not among the
    sources; the two callbacks the gestures use are the store operations of
    the design. *)

(** Modelled from the spec: [onUpdateTaskConnections], the store operation
    [setNodeConnections(sourceId, targetIds)], a bulk replace of the
    [nextTaskIds] of the node [sourceId]. *)
Definition setNodeConnections (sourceTaskId : string) (next : list string)
    (ts : list ProjectTask) : list ProjectTask :=
  map (fun t => if bool_decide (task_id t = sourceTaskId)
                then setNextTaskIds next t else t) ts.

Definition onUpdateTaskConnections (sourceTaskId : string) (next : list string)
    (v : View) : View :=
  withStore (setNodeConnections sourceTaskId next (tasks v))
            (UpdateTaskConnections sourceTaskId next) v.

(** Modelled from the spec: [onUpdateTaskPosition], the store operation
    [updateNodePosition(id, pos)]. *)
Definition updateNodePosition (taskId : string) (p : Point)
    (ts : list ProjectTask) : list ProjectTask :=
  map (fun t => if bool_decide (task_id t = taskId)
                then setPosition p t else t) ts.

Definition onUpdateTaskPosition (taskId : string) (p : Point) (v : View) : View :=
  withStore (updateNodePosition taskId p (tasks v))
            (UpdateTaskPosition taskId p) v.

(** ** ProjectFlowDisplay: permission gate *)

Definition role_is (r : string) (v : View) : bool := bool_decide (userRole v = r).

Definition canEdit (v : View) : bool :=
  role_is "owner" v || role_is "admin" v || role_is "editor" v.

Definition canManage (v : View) : bool :=
  role_is "owner" v || role_is "admin" v.

(** ** ProjectFlowDisplay: connector geometry *)

(** [taskCardRefs.get(k)?.current]. *)
Definition cardElement (k : string) (v : View) : option HTMLDivElement :=
  match taskCardRefs v !! k with
  | Some (Some el) => Some el
  | _ => None
  end.

(** [task.position?.x || 0] and [task.position?.y || 0]. *)
Definition posX (t : ProjectTask) : Q :=
  match position t with Some p => num_or (px p) 0 | None => 0 end.

Definition posY (t : ProjectTask) : Q :=
  match position t with Some p => num_or (py p) 0 | None => 0 end.

Definition sourcePos (sourceTask : ProjectTask) (el : HTMLDivElement) : Point :=
  {| px := jadd (posX sourceTask) (rect_width (getBoundingClientRect el));
     py := jadd (posY sourceTask)
                (jdiv (rect_height (getBoundingClientRect el)) 2) |}.

Definition targetPos (targetTask : ProjectTask) (el : HTMLDivElement) : Point :=
  {| px := posX targetTask;
     py := jadd (posY targetTask)
                (jdiv (rect_height (getBoundingClientRect el)) 2) |}.

(** The body of the inner [forEach]: the connectors pushed for one target id. *)
Definition connectorTo (v : View) (sourceTask : ProjectTask) (from : Point)
    (target : string) : list ConnectorInfo :=
  match findTask target (tasks v) with
  | None => []
  | Some targetTask =>
    match cardElement target v with
    | None => []
    | Some targetCardElement =>
      [ {| conn_id := "conn-" +:+ task_id sourceTask +:+ "-" +:+ target;
           conn_from := from;
           conn_to := targetPos targetTask targetCardElement;
           sourceId := task_id sourceTask;
           targetId := target |} ]
    end
  end.

(** The body of the outer [forEach]: the connectors pushed for one source. *)
Definition connectorsOf (v : View) (sourceTask : ProjectTask) : list ConnectorInfo :=
  match nextTaskIds sourceTask with
  | None | Some [] => []
  | Some next =>
    match cardElement (task_id sourceTask) v with
    | None => []
    | Some sourceCardElement =>
      flat_map (connectorTo v sourceTask (sourcePos sourceTask sourceCardElement)) next
    end
  end.

(** The list handed to [setConnectors]. *)
Definition newConnectors (v : View) : list ConnectorInfo :=
  match flowContainerRef v with
  | None => []
  | Some _ =>
    if bool_decide (size (taskCardRefs v) = 0%nat) then []
    else flat_map (connectorsOf v) (tasks v)
  end.

Definition calculateConnectors (v : View) : View :=
  setConnectors (newConnectors v) v.

(** ** ProjectFlowDisplay: gesture handlers *)

Definition handleDragCardStart (event : PointerEvent) (taskId : string)
    (v : View) : View * PointerEvent :=
  if negb (canEdit v) then (v, event)
  else
    let off :=
      match flowContainerRef v with
      | Some c =>
        let containerRect := getBoundingClientRect c in
        let task := findTask taskId (tasks v) in
        {| px := jsub (jsub (clientX event) (rect_left containerRect))
                      (from_option posX 0 task);
           py := jsub (jsub (clientY event) (rect_top containerRect))
                      (from_option posY 0 task) |}
      | None => dragOffsetRef v
      end in
    (setDragged (Some taskId) off v, setEffectAllowed "move" event).

Definition handleDragOver (event : PointerEvent) (v : View) : View * PointerEvent :=
  if negb (canEdit v) then (v, event)
  else (v, setDropEffect "move" (preventDefault event)).

(** [Math.max(0, Math.min(p, extent - card))]. *)
Definition clamp (p extent card : Q) : Q :=
  Qmax 0 (Qmin p (jsub extent card)).

(** [draggedCardElement?.offsetWidth || 380] and the same for the height. *)
Definition cardWidth (el : option HTMLDivElement) : Q :=
  match el with Some e => num_or (offsetWidth e) 380 | None => 380 end.

Definition cardHeight (el : option HTMLDivElement) : Q :=
  match el with Some e => num_or (offsetHeight e) 280 | None => 280 end.

(** The position [handleDrop] commits for the card [dragged]. *)
Definition dropPosition (event : PointerEvent) (dragged : string)
    (c : HTMLDivElement) (v : View) : Point :=
  let containerRect := getBoundingClientRect c in
  let draggedCardElement := cardElement dragged v in
  let newX := jsub (jsub (clientX event) (rect_left containerRect))
                   (px (dragOffsetRef v)) in
  let newY := jsub (jsub (clientY event) (rect_top containerRect))
                   (py (dragOffsetRef v)) in
  {| px := clamp newX (scrollWidth c) (cardWidth draggedCardElement);
     py := clamp newY (scrollHeight c) (cardHeight draggedCardElement) |}.

Definition handleDrop (event : PointerEvent) (v : View) : View * PointerEvent :=
  if negb (canEdit v) then (v, event)
  else
    match truthy (draggedTaskIdRef v), flowContainerRef v with
    | Some dragged, Some c =>
      let v1 := onUpdateTaskPosition dragged (dropPosition event dragged c v) v in
      let v2 := setDragged None (dragOffsetRef v1) v1 in
      (setTimeout 0 v2, preventDefault event)
    | _, _ => (v, preventDefault event)
    end.

Definition handleStartConnection (taskId : string) (event : PointerEvent)
    (v : View) : View :=
  if negb (canEdit v) then v
  else
    match flowContainerRef v with
    | None => v
    | Some c =>
      let containerRect := getBoundingClientRect c in
      let pos :=
        {| px := jadd (jsub (clientX event) (rect_left containerRect))
                      (scrollLeft c);
           py := jadd (jsub (clientY event) (rect_top containerRect))
                      (scrollTop c) |} in
      setConnectingState (Some {| fromId := taskId; fromPos := pos |}) v
    end.

Definition handleEndConnection (targetTaskId : string) (v : View) : View :=
  if negb (canEdit v) then v
  else
    match connectingState v with
    | None => setConnectingState None v
    | Some cs =>
      if bool_decide (fromId cs = targetTaskId) then setConnectingState None v
      else
        let v1 :=
          match findTask (fromId cs) (tasks v) with
          | Some sourceTask =>
            let next := array_from_set
                          (list_or_empty (nextTaskIds sourceTask) ++ [targetTaskId]) in
            onUpdateTaskConnections (task_id sourceTask) next v
          | None => v
          end in
        setConnectingState None v1
    end.

Definition handleDeleteConnection (sourceTaskId targetTaskId : string)
    (v : View) : View :=
  if negb (canEdit v) then v
  else
    match findTask sourceTaskId (tasks v) with
    | Some sourceTask =>
      let next := filter (fun k => k ≠ targetTaskId)
                         (list_or_empty (nextTaskIds sourceTask)) in
      onUpdateTaskConnections (task_id sourceTask) next v
    | None => v
    end.

Definition handleMouseMove (event : PointerEvent) (v : View) : View :=
  match connectingState v, flowContainerRef v with
  | Some _, Some c =>
    let containerRect := getBoundingClientRect c in
    setMousePos
      {| px := jadd (jsub (clientX event) (rect_left containerRect))
                    (scrollLeft c);
         py := jadd (jsub (clientY event) (rect_top containerRect))
                    (scrollTop c) |} v
  | _, _ => v
  end.

Definition handleMouseUp (v : View) : View :=
  match connectingState v with
  | Some _ => setConnectingState None v
  | None => v
  end.

(** ** Services: promises and the Supabase client

    An [async] method resolves with a value or rejects with the message of
    the [Error] it threw.  The Supabase client is an external library: its
    calls resolve with a response object [{data, error}] and are arguments
    of the methods below. *)

Inductive Promise (A : Type) :=
| Resolved (a : A)
| Rejected (message : string).
Arguments Resolved {A} a.
Arguments Rejected {A} message.

Record PostgrestError := { message : string; code : string }.

(** [{data, error}]: [error] is set, or [data] holds the result. *)
Inductive Response (A : Type) :=
| Data (data : A)
| Error (error : PostgrestError).
Arguments Data {A} data.
Arguments Error {A} error.

(** [.single()] of the client library: the request fails unless exactly one
    row matches. *)
Definition single {A} (r : Response (list A)) : Response A :=
  match r with
  | Error e => Error e
  | Data [row] => Data row
  | Data _ =>
    Error {| message := "JSON object requested, multiple (or no) rows returned";
             code := "PGRST116" |}
  end.

(** ** projectService.ts *)

(** [GanttItem] of [../types], as far as the sources read it. *)
Record GanttItem := {
  gantt_id : string;
  gantt_type : string;
  parentId : option string
}.

(** A row of [projects] joined with [project_members!inner(role)], as the
    client returns it.  A column that may hold [null] is an [option]. *)
Record MemberRole := { role : string }.

Record ProjectRow := {
  row_id : string;
  row_title : string;
  goal : string;
  target_date : string;
  tasks_data : option (list ProjectTask);
  gantt_data : option (list GanttItem);
  created_at : string;
  updated_at : string;
  owner_id : string;
  is_public : bool;
  last_modified_by : option string;
  project_members : list MemberRole
}.

(** [ProjectData] as built at run time.  The interface declares [tasks] as
    [ProjectTask[]]; the field is kept nullable here so that the declaration
    is a property of the methods and not of the model. *)
Record ProjectData := {
  pd_id : string;
  pd_title : string;
  pd_goal : string;
  targetDate : string;
  pd_tasks : option (list ProjectTask);
  ganttData : option (list GanttItem);
  createdAt : string;
  updatedAt : string;
  ownerId : string;
  isPublic : bool;
  lastModifiedBy : option string;
  pd_userRole : option string
}.

(** The object [createProject] inserts. *)
Record ProjectInsert := {
  ins_owner_id : string;
  ins_user_id : string;
  ins_title : string;
  ins_goal : string;
  ins_target_date : string;
  ins_tasks_data : list ProjectTask;
  ins_gantt_data : option (list GanttItem)
}.

(** The [updates] argument of [updateProject], an absent field being
    [None], and the [updateData] object built from it, which has the same
    fields under the column names. *)
Record ProjectUpdates := {
  upd_title : option string;
  upd_goal : option string;
  upd_targetDate : option string;
  upd_tasks : option (list ProjectTask);
  upd_ganttData : option (option (list GanttItem));
  upd_isPublic : option bool
}.

(** The requests of the methods to the [projects] table, each answered by
    the client with a response. *)
Record ProjectsTable := {
  selectAll : Response (list ProjectRow);
  selectById : string → Response ProjectRow;
  insertRow : ProjectInsert → Response ProjectRow;
  updateById : string → ProjectUpdates → Response ProjectRow
}.

(** [x || []] on a nullable array (an array, even empty, is truthy). *)
Definition array_or_empty {A} (x : option (list A)) : option (list A) :=
  match x with
  | Some xs => Some xs
  | None => Some []
  end.

(** The object literal shared by the four methods; they differ in
    [userRole]. *)
Definition toProjectData (project : ProjectRow) (r : option string) : ProjectData :=
  {| pd_id := row_id project;
     pd_title := row_title project;
     pd_goal := goal project;
     targetDate := target_date project;
     pd_tasks := array_or_empty (tasks_data project);
     ganttData := gantt_data project;
     createdAt := created_at project;
     updatedAt := updated_at project;
     ownerId := owner_id project;
     isPublic := is_public project;
     lastModifiedBy := last_modified_by project;
     pd_userRole := r |}.

(** [project.project_members[0]?.role]. *)
Definition firstRole (project : ProjectRow) : option string :=
  role <$> head (project_members project).

Definition getProjects (db : ProjectsTable) : Promise (list ProjectData) :=
  match selectAll db with
  | Error e => Rejected ("プロジェクトの取得に失敗しました: " +:+ message e)
  | Data data => Resolved (map (fun project => toProjectData project (firstRole project)) data)
  end.

Record User := { user_id : string }.

(** [tasks] is [None] when the caller leaves the argument out; the default
    [[]] then applies. *)
Definition createProject (user : option User) (db : ProjectsTable)
    (title goal targetDate : string) (tasks : option (list ProjectTask))
    (ganttData : option (list GanttItem)) : Promise ProjectData :=
  match user with
  | None => Rejected "ログインが必要です"
  | Some u =>
    match insertRow db {| ins_owner_id := user_id u;
                          ins_user_id := user_id u;
                          ins_title := title;
                          ins_goal := goal;
                          ins_target_date := targetDate;
                          ins_tasks_data := default [] tasks;
                          ins_gantt_data := ganttData |} with
    | Error e => Rejected ("プロジェクトの作成に失敗しました: " +:+ message e)
    | Data data => Resolved (toProjectData data (Some "owner"))
    end
  end.

Definition updateProject (db : ProjectsTable) (id : string)
    (updates : ProjectUpdates) : Promise ProjectData :=
  match updateById db id updates with
  | Error e => Rejected ("プロジェクトの更新に失敗しました: " +:+ message e)
  | Data data => Resolved (toProjectData data (firstRole data))
  end.

Definition getProject (db : ProjectsTable) (id : string) : Promise ProjectData :=
  match selectById db id with
  | Error e => Rejected ("プロジェクトの取得に失敗しました: " +:+ message e)
  | Data data => Resolved (toProjectData data (firstRole data))
  end.

(** ** collaborationService.ts *)

(** [getUserRole]: [user] is what [supabase.auth.getUser()] resolved with,
    [members projectId userId] the rows of [project_members] selected by the
    two [eq] filters. *)
Definition getUserRole (user : option User)
    (members : string -> string -> Response (list MemberRole))
    (projectId : string) : Promise (option string) :=
  match user with
  | None => Resolved None
  | Some u =>
    match single (members projectId (user_id u)) with
    | Error _ => Resolved None
    | Data data => Resolved (Some (role data))
    end
  end.

(** A [postgres_changes] binding of a realtime channel; [row_filter] is its
    [filter] field. *)
Record ChangesFilter := {
  event : string;
  schema : string;
  table : string;
  row_filter : string
}.

(** The payload a callback receives, with the columns of the changed row
    (the channel matches its filters against them). *)
Record Payload := {
  pl_schema : string;
  pl_table : string;
  eventType : string;
  columns : list (string * string)
}.

Record Channel (E : Type) := {
  topic : string;
  bindings : list (ChangesFilter * (Payload -> list E))
}.
Arguments topic {E} c.
Arguments bindings {E} c.

Definition subscribeToProjectUpdates {E} (projectId : string)
    (onUpdate : Payload -> list E) : Channel E :=
  {| topic := "project-" +:+ projectId;
     bindings :=
       [ ({| event := "*"; schema := "public"; table := "projects";
             row_filter := "id=eq." +:+ projectId |}, onUpdate);
         ({| event := "*"; schema := "public"; table := "project_members";
             row_filter := "project_id=eq." +:+ projectId |}, onUpdate) ] |}.

(** Delivery by the client library: a change reaches the callback of every
    binding whose event, schema, table and [column=eq.value] filter it
    matches. *)
Definition matches (f : ChangesFilter) (p : Payload) : bool :=
  (bool_decide (event f = "*") || bool_decide (event f = eventType p))
  && bool_decide (schema f = pl_schema p)
  && bool_decide (table f = pl_table p)
  && existsb (fun c => bool_decide (row_filter f = c.1 +:+ "=eq." +:+ c.2)) (columns p).

Definition deliver {E} (c : Channel E) (p : Payload) : list E :=
  flat_map (fun b => if matches b.1 p then b.2 p else []) (bindings c).

(** What a notification can set off in the client. *)
Inductive Reaction :=
| WindowLocationReload
| GetProjectMembers (projectId : string)
| GetProjectInvitations (projectId : string).

(** The callback [ProjectFlowDisplay] subscribes with. *)
Definition onProjectUpdate (payload : Payload) : list Reaction :=
  if bool_decide (pl_table payload = "projects")
     && bool_decide (eventType payload = "UPDATE")
  then [WindowLocationReload] else [].

(** The subscription effect of the component for [currentProjectId]. *)
Definition projectSubscription (currentProjectId : option string)
    : option (Channel Reaction) :=
  match truthy currentProjectId with
  | None => None
  | Some projectId => Some (subscribeToProjectUpdates projectId onProjectUpdate)
  end.

(** [loadData] of [ProjectMembersModal]: the refetch of members and, for a
    manager, of invitations. *)
Definition loadData (projectId : string) (modalRole : string) : list Reaction :=
  GetProjectMembers projectId ::
  (if bool_decide (modalRole = "owner") || bool_decide (modalRole = "admin")
   then [GetProjectInvitations projectId] else []).

(** ** Notions used to state the properties *)

(** The connect gesture [connect(a, b)]: the pointer goes down on the
    handle of [a] and up on the card of [b]. *)
Definition connect (a b : string) (event : PointerEvent) (v : View) : View :=
  handleEndConnection b (handleStartConnection a event v).

(** [disconnect(s, t)]. *)
Definition disconnect (s t : string) (v : View) : View :=
  handleDeleteConnection s t v.

(** [s -> t] is an edge: [t] occurs in the [nextTaskIds] of a node [s]. *)
Definition edge (ts : list ProjectTask) (s t : string) : Prop :=
  ∃ u, u ∈ ts ∧ task_id u = s ∧ t ∈ list_or_empty (nextTaskIds u).

(** The repeat of a connect, with what the design says of it: the same
    graph, and nothing committed to the store. *)
Definition repeat_is_silent (a b : string) (event : PointerEvent) (v : View) : Prop :=
  let v1 := connect a b event v in
  let v2 := connect a b event v1 in
  tasks v2 = tasks v1 ∧ commits v2 = commits v1.

(** The record pushed for the edge from [src] to [t]. *)
Definition connectorInfo (src tgt : ProjectTask) (sEl tEl : HTMLDivElement)
    (t : string) : ConnectorInfo :=
  {| conn_id := "conn-" +:+ task_id src +:+ "-" +:+ t;
     conn_from := sourcePos src sEl;
     conn_to := targetPos tgt tEl;
     sourceId := task_id src;
     targetId := t |}.

(** A card is measurable when its ref holds an element rendered inside the
    mounted canvas. *)
Definition measurable (v : View) (k : string) : Prop :=
  is_Some (flowContainerRef v) ∧ is_Some (cardElement k v).

(** The position of a node, [{0,0}] when unset. *)
Definition origin : Point := {| px := 0; py := 0 |}.

Definition positionOf (t : ProjectTask) : Point := default origin (position t).

Definition in_range (x lo hi : Q) : Prop := lo <= x ∧ x <= hi.

(** ** A sample canvas

    Nodes [A] at (0,0) and [B] at (500,0), no edges, both cards mounted in a
    1200 by 800 canvas, seen by an editor. *)
Definition mkTask (k : string) (x y : Q) (next : list string) : ProjectTask :=
  {| task_id := k; title := k; position := Some {| px := x; py := y |};
     nextTaskIds := Some next |}.

Definition mkDiv (w h : Q) : HTMLDivElement :=
  {| getBoundingClientRect :=
       {| rect_left := 0; rect_top := 0; rect_width := w; rect_height := h |};
     offsetWidth := w; offsetHeight := h;
     scrollLeft := 0; scrollTop := 0;
     scrollWidth := w; scrollHeight := h |}.

Definition pointerAt (x y : Q) : PointerEvent :=
  {| clientX := x; clientY := y; defaultPrevented := false;
     effectAllowed := None; dropEffect := None |}.

Definition mkView (ts : list ProjectTask) (r : string)
    (canvas : option HTMLDivElement) (cards : gmap string (option HTMLDivElement))
    : View :=
  {| tasks := ts; userRole := r; connectingState := None; mousePos := origin;
     connectors := []; flowContainerRef := canvas; taskCardRefs := cards;
     draggedTaskIdRef := None; dragOffsetRef := origin; timers := [];
     commits := [] |}.

Definition sampleCards : gmap string (option HTMLDivElement) :=
  <["A" := Some (mkDiv 380 280)]> (<["B" := Some (mkDiv 380 280)]> ∅).

Definition sampleView : View :=
  mkView [mkTask "A" 0 0 []; mkTask "B" 500 0 []] "editor"
         (Some (mkDiv 1200 800)) sampleCards.

(** The same graph with the edge [A -> B]. *)
Definition connectedView : View :=
  mkView [mkTask "A" 0 0 ["B"]; mkTask "B" 500 0 []] "editor"
         (Some (mkDiv 1200 800)) sampleCards.

(** The same graph with fractional measures: [A] at x = 0.1 under a card
    0.2 wide (the doubles nearest to these). *)
Definition fractionalView : View :=
  mkView [mkTask "A" (fl (1 # 10)) 0 ["B"]; mkTask "B" 500 0 []] "editor"
         (Some (mkDiv 1200 800))
         (<["A" := Some (mkDiv (fl (2 # 10)) 280)]>
            (<["B" := Some (mkDiv 380 280)]> ∅)).

(** The same graph for a viewer. *)
Definition viewerView : View :=
  mkView [mkTask "A" 0 0 ["B"]; mkTask "B" 500 0 []] "viewer"
         (Some (mkDiv 1200 800)) sampleCards.

(** ** Notions for the services *)

(** The record built from [row] has the stored task array, or the empty
    array when none is stored. *)
Definition tasks_defaulted (row : ProjectRow) (d : ProjectData) : Prop :=
  pd_tasks d = Some (default [] (tasks_data row)).

(** A change reaches a callback of the channel. *)
Definition delivered {E} (c : Channel E) (p : Payload) : Prop :=
  ∃ b, b ∈ bindings c ∧ matches b.1 p = true.

(** What the design says of a notification: a reload exactly for an update
    of the project row, and a refetch of the members for a change of the
    member list. *)
Definition notification_policy (projectId : string) (p : Payload) : Prop :=
  let reactions := deliver (subscribeToProjectUpdates projectId onProjectUpdate) p in
  (WindowLocationReload ∈ reactions ↔
   pl_table p = "projects" ∧ eventType p = "UPDATE")
  ∧ (pl_table p = "project_members" → GetProjectMembers projectId ∈ reactions).

Definition change (t ev col projectId : string) : Payload :=
  {| pl_schema := "public"; pl_table := t; eventType := ev;
     columns := [(col, projectId)] |}.

Definition sampleRow (stored : option (list ProjectTask)) : ProjectRow :=
  {| row_id := "p1"; row_title := "Launch"; goal := "Ship";
     target_date := "2025-12-31"; tasks_data := stored; gantt_data := None;
     created_at := "2025-07-07"; updated_at := "2025-07-08";
     owner_id := "u1"; is_public := false; last_modified_by := None;
     project_members := [ {| role := "editor" |} ] |}.

(** A table whose every request is answered with the one sample row. *)
Definition sampleDb (stored : option (list ProjectTask)) : ProjectsTable :=
  {| selectAll := Data [sampleRow stored];
     selectById := fun _ => Data (sampleRow stored);
     insertRow := fun _ => Data (sampleRow stored);
     updateById := fun _ _ => Data (sampleRow stored) |}.

(** ** ProjectFlowDisplay: the remaining effects *)

Definition setTaskCardRefs (refs : gmap string (option HTMLDivElement))
    (v : View) : View :=
  {| tasks := tasks v; userRole := userRole v;
     connectingState := connectingState v; mousePos := mousePos v;
     connectors := connectors v; flowContainerRef := flowContainerRef v;
     taskCardRefs := refs; draggedTaskIdRef := draggedTaskIdRef v;
     dragOffsetRef := dragOffsetRef v; timers := timers v;
     commits := commits v |}.

Definition setUserRole (r : string) (v : View) : View :=
  {| tasks := tasks v; userRole := r;
     connectingState := connectingState v; mousePos := mousePos v;
     connectors := connectors v; flowContainerRef := flowContainerRef v;
     taskCardRefs := taskCardRefs v; draggedTaskIdRef := draggedTaskIdRef v;
     dragOffsetRef := dragOffsetRef v; timers := timers v;
     commits := commits v |}.

(** The effect on [tasks]: every task gets the ref it had, or a new one
    from [createRef()], whose [current] is [null]. *)
Definition newRefs (v : View) : gmap string (option HTMLDivElement) :=
  fold_left
    (fun refs task =>
       <[task_id task := default None (taskCardRefs v !! task_id task)]> refs)
    (tasks v) ∅.

Definition refreshTaskCardRefs (v : View) : View := setTaskCardRefs (newRefs v) v.

(** [role || 'viewer']. *)
Definition role_or_viewer (r : option string) : string :=
  default "viewer" (truthy r).

(** [loadUserRole]: the role is stored first, then the project is fetched
    for its [isPublic]; a rejection of either call ends the function in its
    [catch].  The [isPublic] state hook is the second component. *)
Definition loadUserRole (currentProjectId : option string)
    (role : string → Promise (option string))
    (project : string → Promise ProjectData)
    (v : View) (isPublicState : bool) : View * bool :=
  match truthy currentProjectId with
  | None => (v, isPublicState)
  | Some projectId =>
    match role projectId with
    | Rejected _ => (v, isPublicState)
    | Resolved r =>
      let v1 := setUserRole (role_or_viewer r) v in
      match project projectId with
      | Rejected _ => (v1, isPublicState)
      | Resolved p => (v1, isPublic p)
      end
    end
  end.

(** The total number of outgoing edges stored in the task list. *)
Definition edgeCount (ts : list ProjectTask) : nat :=
  sum_list ((fun t => length (list_or_empty (nextTaskIds t))) <$> ts).

(** ** projectService.ts: visibility *)

Definition onlyIsPublic (b : bool) : ProjectUpdates :=
  {| upd_title := None; upd_goal := None; upd_targetDate := None;
     upd_tasks := None; upd_ganttData := None; upd_isPublic := Some b |}.

Definition toggleProjectVisibility (db : ProjectsTable) (id : string)
    : Promise bool :=
  match getProject db id with
  | Rejected m => Rejected m
  | Resolved project =>
    let newVisibility := negb (isPublic project) in
    match updateProject db id (onlyIsPublic newVisibility) with
    | Rejected m => Rejected m
    | Resolved _ => Resolved newVisibility
    end
  end.

(** [handleToggleVisibility]: the new [isPublic] state and the messages
    shown with [alert]. *)
Definition handleToggleVisibility (db : ProjectsTable)
    (currentProjectId : option string) (v : View) (isPublicState : bool)
    : bool * list string :=
  if negb (canManage v) then (isPublicState, [])
  else
    match truthy currentProjectId with
    | None => (isPublicState, [])
    | Some projectId =>
      match toggleProjectVisibility db projectId with
      | Resolved newVisibility =>
        (newVisibility,
         [if newVisibility then "プロジェクトを公開しました"
          else "プロジェクトを非公開にしました"])
      | Rejected m => (isPublicState, ["公開設定の変更に失敗しました: " +:+ m])
      end
    end.

(** ** The migration: tables and [accept_project_invitation]

    Tables are lists of rows in storage order; a [timestamptz] is an
    integer; [NULL] is [None].  Row-level security is not part of the
    function body and is not modelled. *)

(** The [jsonb] values the functions build: scalars, and objects as lists
    of keys with scalar values. *)
Inductive Json :=
| JNull
| JBool (b : bool)
| JString (s : string).

(** [jsonb_build_object]: the keys with their values. *)
Definition jsonb_build_object (fields : list (string * Json)) : list (string * Json) :=
  fields.

Record AuthUser := { au_id : string; au_email : option string }.

Record MemberRow := {
  pm_id : string;
  pm_project_id : string;
  pm_user_id : string;
  pm_role : string;
  pm_invited_by : option string;
  pm_joined_at : Z;
  pm_created_at : Z
}.

Record InvitationRow := {
  pi_id : string;
  pi_project_id : string;
  pi_email : string;
  pi_role : string;
  pi_invited_by : string;
  pi_token : string;
  pi_expires_at : Z;
  pi_accepted_at : option Z;
  pi_created_at : Z
}.

Record ActivityRow := {
  al_id : string;
  al_project_id : string;
  al_user_id : option string;
  al_action : string;
  al_details : list (string * Json);
  al_created_at : Z
}.

Record Database := {
  auth_users : list AuthUser;
  db_members : list MemberRow;
  db_invitations : list InvitationRow;
  db_activity_log : list ActivityRow
}.

(** What a call sees of its session: [auth.uid()], [now()], and the two
    values [gen_random_uuid()] yields for the rows it inserts. *)
Record Session := {
  auth_uid : option string;
  now : Z;
  member_uuid : string;
  log_uuid : string
}.

(** [SELECT email INTO user_email FROM auth.users WHERE id = auth.uid()]:
    [NULL] without a session user or without a row. *)
Definition session_email (s : Session) (db : Database) : option string :=
  uid ← auth_uid s;
  u ← find (fun u => bool_decide (au_id u = uid)) (auth_users db);
  au_email u.

(** The [WHERE] clause of the invitation lookup; a comparison with a
    [NULL] email is not true. *)
Definition invitation_matches (invitation_token : string)
    (user_email : option string) (t : Z) (i : InvitationRow) : bool :=
  bool_decide (pi_token i = invitation_token)
  && bool_decide (Some (pi_email i) = user_email)
  && bool_decide (t < pi_expires_at i)%Z
  && bool_decide (pi_accepted_at i = None).

Definition same_member (project user : string) (m : MemberRow) : bool :=
  bool_decide (pm_project_id m = project) && bool_decide (pm_user_id m = user).

Definition setRole (r : string) (m : MemberRow) : MemberRow :=
  {| pm_id := pm_id m; pm_project_id := pm_project_id m;
     pm_user_id := pm_user_id m; pm_role := r;
     pm_invited_by := pm_invited_by m; pm_joined_at := pm_joined_at m;
     pm_created_at := pm_created_at m |}.

(** [INSERT INTO project_members ... ON CONFLICT (project_id, user_id)
    DO UPDATE SET role = ...]. *)
Definition upsert_member (s : Session) (uid : string) (i : InvitationRow)
    (ms : list MemberRow) : list MemberRow :=
  if existsb (same_member (pi_project_id i) uid) ms
  then map (fun m => if same_member (pi_project_id i) uid m
                     then setRole (pi_role i) m else m) ms
  else ms ++ [ {| pm_id := member_uuid s; pm_project_id := pi_project_id i;
                  pm_user_id := uid; pm_role := pi_role i;
                  pm_invited_by := Some (pi_invited_by i);
                  pm_joined_at := now s; pm_created_at := now s |} ].

Definition setAccepted (t : Z) (i : InvitationRow) : InvitationRow :=
  {| pi_id := pi_id i; pi_project_id := pi_project_id i;
     pi_email := pi_email i; pi_role := pi_role i;
     pi_invited_by := pi_invited_by i; pi_token := pi_token i;
     pi_expires_at := pi_expires_at i; pi_accepted_at := Some t;
     pi_created_at := pi_created_at i |}.

(** [UPDATE project_invitations SET accepted_at = now() WHERE id = ...]. *)
Definition mark_accepted (t : Z) (id : string) (rows : list InvitationRow)
    : list InvitationRow :=
  map (fun i => if bool_decide (pi_id i = id) then setAccepted t i else i) rows.

Definition member_joined (s : Session) (uid : string) (i : InvitationRow)
    : ActivityRow :=
  {| al_id := log_uuid s; al_project_id := pi_project_id i;
     al_user_id := Some uid; al_action := "member_joined";
     al_details := jsonb_build_object
                     [("role", JString (pi_role i));
                      ("invited_by", JString (pi_invited_by i))];
     al_created_at := now s |}.

(** The function: the tables after the call and the [jsonb] returned.
    Without a session user [user_email] is [NULL] and no invitation
    matches, so the inserts, which use [auth.uid()], run with a user. *)
Definition accept_project_invitation (s : Session) (invitation_token : string)
    (db : Database) : Database * list (string * Json) :=
  let not_found :=
    (db, jsonb_build_object [("success", JBool false);
                             ("error", JString "Invalid or expired invitation")]) in
  match auth_uid s with
  | None => not_found
  | Some uid =>
    match find (invitation_matches invitation_token (session_email s db) (now s))
               (db_invitations db) with
    | None => not_found
    | Some invitation_record =>
      ({| auth_users := auth_users db;
          db_members := upsert_member s uid invitation_record (db_members db);
          db_invitations := mark_accepted (now s) (pi_id invitation_record)
                                          (db_invitations db);
          db_activity_log := db_activity_log db
                             ++ [member_joined s uid invitation_record] |},
       jsonb_build_object [("success", JBool true);
                           ("project_id", JString (pi_project_id invitation_record))])
    end
  end.

(** ** Accepting an invitation in the client *)

(** [CollaborationService.acceptInvitation]: the object the function
    returned, as it is. *)
Definition acceptInvitation (rpc : Response (list (string * Json)))
    : Promise (list (string * Json)) :=
  match rpc with
  | Error e => Rejected ("招待の受諾に失敗しました: " +:+ message e)
  | Data data => Resolved data
  end.

(** [result.key]: [undefined] when the object has no such key. *)
Definition js_get (key : string) (o : list (string * Json)) : option Json :=
  snd <$> find (fun f => bool_decide (f.1 = key)) o.

Definition js_truthy (x : option Json) : bool :=
  match x with
  | None | Some JNull | Some (JBool false) | Some (JString "") => false
  | Some _ => true
  end.

(** The state of [InvitationAcceptModal], with the project ids handed to
    [onSuccess] by the two-second timer. *)
Record AcceptModal := {
  am_token : string;
  isAccepting : bool;
  am_error : option Json;
  am_success : bool;
  am_opened : list Json
}.

(** [handleAccept]; [trim] is [String.prototype.trim], and [rpc] the
    answer of the database to the token. *)
Definition handleAccept (trim : string → string)
    (rpc : string → Response (list (string * Json))) (m : AcceptModal)
    : AcceptModal :=
  if bool_decide (trim (am_token m) = "") then m
  else
    match acceptInvitation (rpc (am_token m)) with
    | Resolved result =>
      if js_truthy (js_get "success" result)
         && js_truthy (js_get "projectId" result)
      then {| am_token := am_token m; isAccepting := false; am_error := None;
              am_success := true;
              am_opened := am_opened m
                           ++ [default JNull (js_get "projectId" result)] |}
      else {| am_token := am_token m; isAccepting := false;
              am_error :=
                Some (if js_truthy (js_get "error" result)
                      then default JNull (js_get "error" result)
                      else JString "招待の受諾に失敗しました");
              am_success := am_success m; am_opened := am_opened m |}
    | Rejected msg =>
      {| am_token := am_token m; isAccepting := false;
         am_error := Some (JString msg);
         am_success := am_success m; am_opened := am_opened m |}
    end.

(** The modal talking to a database [db] in the session [s]. *)
Definition acceptWith (s : Session) (db : Database) (token : string)
    : Response (list (string * Json)) :=
  Data (accept_project_invitation s token db).2.

(** The answers of [accept_project_invitation]. *)
Definition accept_failed : list (string * Json) :=
  [("success", JBool false); ("error", JString "Invalid or expired invitation")].

Definition accept_ok (project : string) : list (string * Json) :=
  [("success", JBool true); ("project_id", JString project)].

(** An invitation the signed-in user of [s] can accept with [token]. *)
Definition acceptable (s : Session) (db : Database) (token : string)
    (i : InvitationRow) : Prop :=
  pi_token i = token ∧ Some (pi_email i) = session_email s db
  ∧ (now s < pi_expires_at i)%Z ∧ pi_accepted_at i = None.

(** The key of the [UNIQUE(project_id, user_id)] constraint. *)
Definition member_key (m : MemberRow) : string * string :=
  (pm_project_id m, pm_user_id m).

(** A small database: one user, one open invitation to project [p1], on
    which the user is already the owner. *)
Definition sampleSession : Session :=
  {| auth_uid := Some "u1"; now := 100; member_uuid := "m9"; log_uuid := "l9" |}.

Definition sampleInvitation : InvitationRow :=
  {| pi_id := "i1"; pi_project_id := "p1"; pi_email := "ann@example.com";
     pi_role := "viewer"; pi_invited_by := "u2"; pi_token := "tok";
     pi_expires_at := 200; pi_accepted_at := None; pi_created_at := 50 |}.

Definition sampleDatabase : Database :=
  {| auth_users := [ {| au_id := "u1"; au_email := Some "ann@example.com" |} ];
     db_members := [ {| pm_id := "m1"; pm_project_id := "p1"; pm_user_id := "u1";
                        pm_role := "owner"; pm_invited_by := None;
                        pm_joined_at := 10; pm_created_at := 10 |} ];
     db_invitations := [sampleInvitation];
     db_activity_log := [] |}.

Definition sampleModal : AcceptModal :=
  {| am_token := "tok"; isAccepting := false; am_error := None;
     am_success := false; am_opened := [] |}.

(** ** collaborationService.ts: invitations *)

(** The object [inviteToProject] inserts. *)
Record InvitationInsert := {
  ii_project_id : string;
  ii_email : string;
  ii_role : string;
  ii_invited_by : string
}.

(** [ProjectInvitation]. *)
Record ProjectInvitation := {
  inv_id : string;
  inv_projectId : string;
  inv_email : string;
  inv_role : string;
  inv_invitedBy : string;
  inv_token : string;
  inv_expiresAt : Z;
  inv_acceptedAt : option Z;
  inv_createdAt : Z
}.

Definition toProjectInvitation (data : InvitationRow) : ProjectInvitation :=
  {| inv_id := pi_id data;
     inv_projectId := pi_project_id data;
     inv_email := pi_email data;
     inv_role := pi_role data;
     inv_invitedBy := pi_invited_by data;
     inv_token := pi_token data;
     inv_expiresAt := pi_expires_at data;
     inv_acceptedAt := pi_accepted_at data;
     inv_createdAt := pi_created_at data |}.

Definition alreadyInvited : string := "このメールアドレスは既に招待されています".

Definition inviteToProject (user : option User)
    (insert : InvitationInsert → Response InvitationRow)
    (projectId email r : string) : Promise ProjectInvitation :=
  match user with
  | None => Rejected "ログインが必要です"
  | Some u =>
    match insert {| ii_project_id := projectId; ii_email := email;
                    ii_role := r; ii_invited_by := user_id u |} with
    | Error e =>
      if bool_decide (code e = "23505") then Rejected alreadyInvited
      else Rejected ("招待の送信に失敗しました: " +:+ message e)
    | Data data => Resolved (toProjectInvitation data)
    end
  end.

(** ** Sequences of gestures

    The pointer events the canvas and its cards hand to the handlers, and
    the view after a sequence of them. *)
Inductive Gesture :=
| DragCardStart (event : PointerEvent) (taskId : string)
| DragOver (event : PointerEvent)
| Drop (event : PointerEvent)
| StartConnection (taskId : string) (event : PointerEvent)
| EndConnection (targetTaskId : string)
| DeleteConnection (sourceTaskId targetTaskId : string)
| MouseMove (event : PointerEvent)
| MouseUp.

Definition handle (g : Gesture) (v : View) : View :=
  match g with
  | DragCardStart event taskId => (handleDragCardStart event taskId v).1
  | DragOver event => (handleDragOver event v).1
  | Drop event => (handleDrop event v).1
  | StartConnection taskId event => handleStartConnection taskId event v
  | EndConnection targetTaskId => handleEndConnection targetTaskId v
  | DeleteConnection s t => handleDeleteConnection s t v
  | MouseMove event => handleMouseMove event v
  | MouseUp => handleMouseUp v
  end.

Definition handleAll (gs : list Gesture) (v : View) : View :=
  fold_left (fun w g => handle g w) gs v.

(** Every [nextTaskIds] is free of duplicates. *)
Definition lists_unique (ts : list ProjectTask) : Prop :=
  Forall (fun t => NoDup (list_or_empty (nextTaskIds t))) ts.

(** Every edge ends at a node. *)
Definition no_dangling (ts : list ProjectTask) : Prop :=
  ∀ s t, edge ts s t → t ∈ task_id <$> ts.

(** The targets of the connect gestures of a sequence. *)
Definition connectTargets (gs : list Gesture) : list string :=
  flat_map (fun g => match g with EndConnection t => [t] | _ => [] end) gs.

(** The three ways a handler can leave the task list. *)
Inductive tasks_step (v : View) (g : Gesture) : list ProjectTask → Prop :=
| step_same : tasks_step v g (tasks v)
| step_move k p : tasks_step v g (updateNodePosition k p (tasks v))
| step_connect src b :
    g = EndConnection b → src ∈ tasks v → task_id src ≠ b →
    tasks_step v g
      (setNodeConnections (task_id src)
         (array_from_set (list_or_empty (nextTaskIds src) ++ [b])) (tasks v))
| step_disconnect src t :
    src ∈ tasks v →
    tasks_step v g
      (setNodeConnections (task_id src)
         (filter (fun k => k ≠ t) (list_or_empty (nextTaskIds src))) (tasks v)).

(** * Properties *)

(** ** Sets built from arrays *)

Lemma set_add_elem (acc : list string) (x y : string) :
  y ∈ set_add acc x ↔ y ∈ acc ∨ y = x.
Proof.
  unfold set_add. case_bool_decide as Hx.
  - split; [by left | intros [?| ->]; done].
  - rewrite elem_of_app, list_elem_of_singleton. done.
Qed.

Lemma fold_set_add_elem (xs acc : list string) (y : string) :
  y ∈ fold_left set_add xs acc ↔ y ∈ acc ∨ y ∈ xs.
Proof.
  revert acc. induction xs as [|x xs IH]; intros acc; simpl.
  - rewrite elem_of_nil. tauto.
  - rewrite IH, set_add_elem, elem_of_cons. tauto.
Qed.

Lemma fold_set_add_NoDup (xs acc : list string) :
  NoDup acc → NoDup (fold_left set_add xs acc).
Proof.
  revert acc. induction xs as [|x xs IH]; intros acc Hacc; simpl; [done|].
  apply IH. unfold set_add. case_bool_decide as Hx; [done|].
  apply NoDup_app. split_and!; [done | | apply NoDup_singleton].
  intros y Hy Hyx. apply list_elem_of_singleton in Hyx. by subst.
Qed.

Lemma fold_set_add_fresh (xs acc : list string) :
  NoDup (acc ++ xs) → fold_left set_add xs acc = acc ++ xs.
Proof.
  revert acc. induction xs as [|x xs IH]; intros acc Hnd; simpl.
  - by rewrite app_nil_r.
  - assert (x ∉ acc) as Hx.
    { apply NoDup_app in Hnd as (_ & Hdisj & _).
      intros Hin. apply (Hdisj x Hin). by left. }
    unfold set_add. rewrite bool_decide_eq_false_2 by done.
    rewrite IH; rewrite <- app_assoc; done.
Qed.

Lemma array_from_set_elem (xs : list string) (y : string) :
  y ∈ array_from_set xs ↔ y ∈ xs.
Proof.
  unfold array_from_set. rewrite fold_set_add_elem, elem_of_nil. tauto.
Qed.

Lemma array_from_set_NoDup (xs : list string) : NoDup (array_from_set xs).
Proof. apply fold_set_add_NoDup, NoDup_nil_2. Qed.

Lemma array_from_set_id (xs : list string) :
  NoDup xs → array_from_set xs = xs.
Proof. intros Hnd. unfold array_from_set. by rewrite fold_set_add_fresh. Qed.

(** Adding a target to the set built by a first connect changes nothing. *)
Lemma array_from_set_again (xs : list string) (b : string) :
  array_from_set (array_from_set (xs ++ [b]) ++ [b]) = array_from_set (xs ++ [b]).
Proof.
  set (ys := array_from_set (xs ++ [b])).
  unfold array_from_set at 1. rewrite fold_left_app. simpl.
  fold (array_from_set ys).
  rewrite array_from_set_id by apply array_from_set_NoDup.
  unfold set_add. rewrite bool_decide_eq_true_2; [done|].
  apply array_from_set_elem, elem_of_app. right. by left.
Qed.

(** ** The store operations *)

Lemma findTask_Some (k : string) (ts : list ProjectTask) (t : ProjectTask) :
  findTask k ts = Some t → t ∈ ts ∧ task_id t = k.
Proof.
  unfold findTask. intros H. apply find_some in H as [Hin Hk].
  split; [by apply list_elem_of_In | by apply bool_decide_eq_true in Hk].
Qed.

Lemma findTask_None (k : string) (ts : list ProjectTask) :
  findTask k ts = None ↔ ∀ t, t ∈ ts → task_id t ≠ k.
Proof.
  unfold findTask. split.
  - intros H t Hin Hk. apply list_elem_of_In in Hin.
    pose proof (find_none _ _ H t Hin) as Hf. simpl in Hf.
    by apply bool_decide_eq_false in Hf.
  - induction ts as [|t ts IH]; intros Hall; simpl; [done|].
    rewrite bool_decide_eq_false_2 by (apply Hall; by left).
    apply IH. intros u Hu. apply Hall. by right.
Qed.

Lemma findTask_setNodeConnections (k s : string) (next : list string)
    (ts : list ProjectTask) :
  findTask k (setNodeConnections s next ts) =
  (fun t => if bool_decide (task_id t = s) then setNextTaskIds next t else t)
    <$> findTask k ts.
Proof.
  unfold findTask, setNodeConnections.
  induction ts as [|t ts IH]; simpl; [done|].
  assert (task_id (if bool_decide (task_id t = s)
                   then setNextTaskIds next t else t) = task_id t) as ->.
  { by case_bool_decide. }
  case_bool_decide; [done | apply IH].
Qed.

Lemma setNodeConnections_twice (s : string) (next : list string)
    (ts : list ProjectTask) :
  setNodeConnections s next (setNodeConnections s next ts) =
  setNodeConnections s next ts.
Proof.
  unfold setNodeConnections. rewrite map_map. apply map_ext. intros t.
  destruct (decide (task_id t = s)) as [Ht|Ht].
  - rewrite !(bool_decide_eq_true_2 _ Ht). simpl.
    by rewrite ?(bool_decide_eq_true_2 _ Ht).
  - by rewrite !(bool_decide_eq_false_2 _ Ht).
Qed.

(** ** Connect *)

Lemma canEdit_role (v w : View) : userRole v = userRole w → canEdit v = canEdit w.
Proof. unfold canEdit, role_is. by intros ->. Qed.

Lemma endConnection_connects (b : string) (v : View) (cs : ConnectingState)
    (src : ProjectTask) :
  canEdit v = true → connectingState v = Some cs → fromId cs ≠ b →
  findTask (fromId cs) (tasks v) = Some src →
  handleEndConnection b v =
  setConnectingState None
    (onUpdateTaskConnections (fromId cs)
       (array_from_set (list_or_empty (nextTaskIds src) ++ [b])) v).
Proof.
  intros Hedit Hcs Hne Hsrc. unfold handleEndConnection.
  rewrite Hedit, Hcs. simpl. rewrite bool_decide_eq_false_2 by done.
  rewrite Hsrc. by destruct (findTask_Some _ _ _ Hsrc) as [_ ->].
Qed.

Lemma endConnection_no_source (b : string) (v : View) (cs : ConnectingState) :
  canEdit v = true → connectingState v = Some cs → fromId cs ≠ b →
  findTask (fromId cs) (tasks v) = None →
  handleEndConnection b v = setConnectingState None v.
Proof.
  intros Hedit Hcs Hne Hsrc. unfold handleEndConnection.
  rewrite Hedit, Hcs. simpl. rewrite bool_decide_eq_false_2 by done.
  by rewrite Hsrc.
Qed.

Lemma endConnection_idle (b : string) (v : View) :
  connectingState v = None →
  tasks (handleEndConnection b v) = tasks v
  ∧ commits (handleEndConnection b v) = commits v
  ∧ connectingState (handleEndConnection b v) = None.
Proof.
  intros Hcs. unfold handleEndConnection.
  destruct (canEdit v); simpl; [by rewrite Hcs | done].
Qed.

(** The second of two equal connects, when the first one reached the store. *)
Lemma connect_repeat_store (a b : string) (v : View) (p q : Point)
    (src : ProjectTask) :
  canEdit v = true → a ≠ b → findTask a (tasks v) = Some src →
  let next := array_from_set (list_or_empty (nextTaskIds src) ++ [b]) in
  let v1 := handleEndConnection b
              (setConnectingState (Some {| fromId := a; fromPos := p |}) v) in
  let v2 := handleEndConnection b
              (setConnectingState (Some {| fromId := a; fromPos := q |}) v1) in
  tasks v1 = setNodeConnections a next (tasks v)
  ∧ commits v1 = commits v ++ [UpdateTaskConnections a next]
  ∧ tasks v2 = tasks v1
  ∧ commits v2 = commits v1 ++ [UpdateTaskConnections a next].
Proof.
  intros Hedit Hne Hsrc next v1 v2.
  assert (v1 = setConnectingState None (onUpdateTaskConnections a next v)) as E1.
  { subst v1.
    rewrite (endConnection_connects b _ {| fromId := a; fromPos := p |} src);
      done. }
  assert (findTask a (tasks v1) = Some (setNextTaskIds next src)) as Hsrc1.
  { rewrite E1. simpl. rewrite findTask_setNodeConnections, Hsrc. simpl.
    destruct (findTask_Some _ _ _ Hsrc) as [_ Hid].
    by rewrite bool_decide_eq_true_2. }
  assert (v2 = setConnectingState None (onUpdateTaskConnections a next v1)) as E2.
  { subst v2.
    rewrite (endConnection_connects b _ {| fromId := a; fromPos := q |}
               (setNextTaskIds next src)); [| | done | done | exact Hsrc1].
    - simpl. replace (array_from_set (next ++ [b])) with next; [done|].
      symmetry. apply array_from_set_again.
    - rewrite <- Hedit. apply canEdit_role. by rewrite E1. }
  split_and!.
  - by rewrite E1.
  - by rewrite E1.
  - rewrite E2. simpl. rewrite E1. simpl. apply setNodeConnections_twice.
  - by rewrite E2.
Qed.

Lemma endConnection_frame (b : string) (v : View) :
  userRole (handleEndConnection b v) = userRole v
  ∧ flowContainerRef (handleEndConnection b v) = flowContainerRef v.
Proof.
  unfold handleEndConnection.
  destruct (canEdit v); simpl; [|done].
  destruct (connectingState v) as [cs|]; [|done].
  case_bool_decide; [done|].
  by destruct (findTask (fromId cs) (tasks v)).
Qed.

Lemma endConnection_clears (b : string) (v : View) :
  canEdit v = true → connectingState (handleEndConnection b v) = None.
Proof.
  intros Hedit. unfold handleEndConnection. rewrite Hedit. simpl.
  destruct (connectingState v) as [cs|]; [|done].
  case_bool_decide; [done|].
  by destruct (findTask (fromId cs) (tasks v)).
Qed.

Lemma startConnection_mounted (a : string) (e : PointerEvent) (v : View)
    (c : HTMLDivElement) :
  canEdit v = true → flowContainerRef v = Some c →
  ∃ p, handleStartConnection a e v =
       setConnectingState (Some {| fromId := a; fromPos := p |}) v.
Proof.
  intros Hedit Hc. unfold handleStartConnection. rewrite Hedit, Hc. simpl. eauto.
Qed.

(** C1, as the code has it.  For distinct [a] and [b], the gesture
    [connect(a, b)] made twice leaves the same task list, hence the same
    edge set, as made once.  The repeat is not suppressed before the store
    is reached: when the first connect reached the store (editing allowed,
    canvas mounted, [a] a task), the second one calls
    [onUpdateTaskConnections] again, with the duplicate-free list that [a]
    already holds, which contains [b]. *)
Theorem connect_idempotent (a b : string) (e e' : PointerEvent) (v : View) :
  a ≠ b →
  let v1 := connect a b e v in
  let v2 := connect a b e' v1 in
  tasks v2 = tasks v1
  ∧ (∀ s t, edge (tasks v2) s t ↔ edge (tasks v1) s t)
  ∧ (canEdit v = true → is_Some (flowContainerRef v) →
     is_Some (findTask a (tasks v)) →
     ∃ next, findTask a (tasks v1) ≫= nextTaskIds = Some next
             ∧ NoDup next ∧ b ∈ next
             ∧ commits v2 = commits v1 ++ [UpdateTaskConnections a next]).
Proof.
  intros Hne v1 v2.
  assert (tasks v2 = tasks v1
          ∧ (canEdit v = true → is_Some (flowContainerRef v) →
             is_Some (findTask a (tasks v)) →
             ∃ next, findTask a (tasks v1) ≫= nextTaskIds = Some next
                     ∧ NoDup next ∧ b ∈ next
                     ∧ commits v2 = commits v1 ++ [UpdateTaskConnections a next]))
    as [Htasks Hrepeat].
  2:{ split_and!; [done | by rewrite Htasks | done]. }
  subst v1 v2. unfold connect.
  destruct (canEdit v) eqn:Hedit.
  2:{ split; [|done].
      assert (handleStartConnection a e v = v) as ->.
      { unfold handleStartConnection. by rewrite Hedit. }
      assert (handleEndConnection b v = v) as ->.
      { unfold handleEndConnection. by rewrite Hedit. }
      assert (handleStartConnection a e' v = v) as ->.
      { unfold handleStartConnection. by rewrite Hedit. }
      unfold handleEndConnection. by rewrite Hedit. }
  destruct (flowContainerRef v) as [c|] eqn:Hc.
  - destruct (startConnection_mounted a e v c Hedit Hc) as [p ->].
    set (v1 := handleEndConnection b
                 (setConnectingState (Some {| fromId := a; fromPos := p |}) v)).
    destruct (endConnection_frame b
                (setConnectingState (Some {| fromId := a; fromPos := p |}) v))
      as [Hrole Hcont]. fold v1 in Hrole, Hcont. simpl in Hrole, Hcont.
    assert (canEdit v1 = true) as Hedit1.
    { rewrite <- Hedit. by apply canEdit_role. }
    destruct (startConnection_mounted a e' v1 c Hedit1) as [q ->].
    { by rewrite Hcont. }
    destruct (findTask a (tasks v)) as [src|] eqn:Hsrc.
    + destruct (connect_repeat_store a b v p q src Hedit Hne Hsrc)
        as (Ht1 & Hc1 & Ht2 & Hc2).
      fold v1 in Ht1, Hc1, Ht2, Hc2.
      split; [done|]. intros _ _ _.
      exists (array_from_set (list_or_empty (nextTaskIds src) ++ [b])).
      split_and!.
      * rewrite Ht1, findTask_setNodeConnections, Hsrc. simpl.
        destruct (findTask_Some _ _ _ Hsrc) as [_ Hid].
        by rewrite bool_decide_eq_true_2.
      * apply array_from_set_NoDup.
      * apply array_from_set_elem, elem_of_app. right. by left.
      * done.
    + split; [|intros _ _ [? ?]; done].
      assert (v1 = setConnectingState None v) as E1.
      { subst v1.
        by rewrite (endConnection_no_source b _ {| fromId := a; fromPos := p |}). }
      rewrite (endConnection_no_source b _ {| fromId := a; fromPos := q |});
        [done | done | done | done |].
      simpl. by rewrite E1.
  - split; [|intros _ [? ?]; done].
    assert (handleStartConnection a e v = v) as ->.
    { unfold handleStartConnection. by rewrite Hedit, Hc. }
    set (v1 := handleEndConnection b v).
    destruct (endConnection_frame b v) as [Hrole Hcont]. fold v1 in Hrole, Hcont.
    assert (handleStartConnection a e' v1 = v1) as ->.
    { unfold handleStartConnection. rewrite Hcont, Hc. by destruct (negb _). }
    apply endConnection_idle. by apply endConnection_clears.
Qed.

Lemma connect_idempotent_witness :
  "A" ≠ "B"
  ∧ tasks (connect "A" "B" (pointerAt 10 10)
             (connect "A" "B" (pointerAt 10 10) sampleView))
    = tasks (connect "A" "B" (pointerAt 10 10) sampleView)
  ∧ commits (connect "A" "B" (pointerAt 10 10)
               (connect "A" "B" (pointerAt 10 10) sampleView))
    = commits (connect "A" "B" (pointerAt 10 10) sampleView)
      ++ [UpdateTaskConnections "A" ["B"]].
Proof.
  assert ("A" ≠ "B") as Hne by discriminate.
  destruct (connect_idempotent "A" "B" (pointerAt 10 10) (pointerAt 10 10)
              sampleView Hne) as (Ht & _ & Hrepeat).
  destruct Hrepeat as (next & Hnext & _ & _ & Hc).
  - reflexivity.
  - by eexists.
  - by eexists.
  - split_and!; [done | done |].
    vm_compute in Hnext. injection Hnext as <-. exact Hc.
Defined.

(** C1 as stated fails: on the sample canvas the second [connect(A, B)]
    leaves the graph as it is, yet it commits a store update. *)
Lemma connect_repeat_not_silent :
  ¬ repeat_is_silent "A" "B" (pointerAt 10 10) sampleView.
Proof.
  intros [_ Hc]. vm_compute in Hc. discriminate Hc.
Qed.

(** ** Cancelled gestures *)

Lemma endConnection_self (a : string) (v : View) (cs : ConnectingState) :
  connectingState v = Some cs → fromId cs = a →
  tasks (handleEndConnection a v) = tasks v
  ∧ commits (handleEndConnection a v) = commits v
  ∧ (canEdit v = true → connectingState (handleEndConnection a v) = None).
Proof.
  intros Hcs Hsame. unfold handleEndConnection.
  destruct (canEdit v); simpl; [|done].
  rewrite Hcs. by rewrite bool_decide_eq_true_2.
Qed.

Lemma mouseUp_cancels (v : View) :
  tasks (handleMouseUp v) = tasks v
  ∧ commits (handleMouseUp v) = commits v
  ∧ connectingState (handleMouseUp v) = None.
Proof. unfold handleMouseUp. by destruct (connectingState v) eqn:E. Qed.

(** C2.  Ending a connect gesture on card [a] when no gesture is active, or
    when the active one started from [a], changes no task and commits
    nothing to the store; an editor's gesture state is cleared (for a
    non-editor the handler returns at once).  In
    particular the whole gesture [connect(a, a)], started while no other
    gesture is pending or on a mounted canvas, leaves the task list, and so
    the edge set, unchanged.  A pointer-up on the canvas clears the gesture
    state and changes no task either.  The handlers are total functions:
    no path of theirs throws. *)
Theorem cancel_without_mutation (a : string) (e : PointerEvent) (v : View) :
  ((connectingState v = None ∨ fromId <$> connectingState v = Some a) →
   tasks (handleEndConnection a v) = tasks v
   ∧ commits (handleEndConnection a v) = commits v
   ∧ (canEdit v = true → connectingState (handleEndConnection a v) = None))
  ∧ ((connectingState v = None ∨ is_Some (flowContainerRef v)) →
     tasks (connect a a e v) = tasks v
     ∧ (∀ s t, edge (tasks (connect a a e v)) s t ↔ edge (tasks v) s t)
     ∧ commits (connect a a e v) = commits v
     ∧ (canEdit v = true → connectingState (connect a a e v) = None))
  ∧ (tasks (handleMouseUp v) = tasks v
     ∧ commits (handleMouseUp v) = commits v
     ∧ connectingState (handleMouseUp v) = None).
Proof.
  split_and!; try apply mouseUp_cancels.
  - intros [Hnone|Hself].
    + destruct (endConnection_idle a v Hnone) as (? & ? & ?). done.
    + destruct (connectingState v) as [cs|] eqn:Hcs; [|done].
      apply (endConnection_self a v cs Hcs). by injection Hself.
  - intros Hstart.
    assert (tasks (connect a a e v) = tasks v
            ∧ commits (connect a a e v) = commits v
            ∧ (canEdit v = true → connectingState (connect a a e v) = None))
      as (Ht & Hc & Hs).
    2:{ split_and!; [done | by rewrite Ht | done | done]. }
    unfold connect. destruct (canEdit v) eqn:Hedit.
    2:{ assert (handleStartConnection a e v = v) as ->.
        { unfold handleStartConnection. by rewrite Hedit. }
        unfold handleEndConnection. by rewrite Hedit. }
    destruct (flowContainerRef v) as [c|] eqn:Hc.
    + destruct (startConnection_mounted a e v c Hedit Hc) as [p ->].
      destruct (endConnection_self a
                  (setConnectingState (Some {| fromId := a; fromPos := p |}) v)
                  {| fromId := a; fromPos := p |}) as (? & ? & Hclear); [done..|].
      split_and!; [done | done |]. intros _. by apply Hclear.
    + assert (handleStartConnection a e v = v) as ->.
      { unfold handleStartConnection. by rewrite Hedit, Hc. }
      destruct Hstart as [Hnone|[? ?]]; [|done].
      destruct (endConnection_idle a v Hnone) as (? & ? & ?). done.
Qed.

Lemma cancel_without_mutation_witness :
  tasks (handleEndConnection "A" sampleView) = tasks sampleView
  ∧ commits (connect "A" "A" (pointerAt 10 10) sampleView) = commits sampleView
  ∧ connectingState (connect "A" "A" (pointerAt 10 10) sampleView) = None.
Proof.
  destruct (cancel_without_mutation "A" (pointerAt 10 10) sampleView)
    as (Hend & Hself & _).
  destruct Hend as (Ht & _); [by left|].
  destruct Hself as (_ & _ & Hc & Hs); [by left|].
  split_and!; [exact Ht | exact Hc | by apply Hs].
Defined.

(** ** The permission gate *)

Lemma role_is_true (r : string) (v : View) : role_is r v = true ↔ userRole v = r.
Proof. unfold role_is. apply bool_decide_eq_true. Qed.

(** C7.  [canEdit] holds exactly for the roles owner, admin and editor,
    [canManage] exactly for owner and admin.  When [canEdit] is false, each
    gated handler of the move, connect and delete-edge gestures returns the
    view, and the event, as it received them: no task, no ref and no state
    changes, nothing is committed to the store.  The two ungated pointer
    handlers change no task and commit nothing.  All are total: no path of
    theirs throws. *)
Theorem read_only_gestures (v : View) :
  (canEdit v = true ↔
   userRole v = "owner" ∨ userRole v = "admin" ∨ userRole v = "editor")
  ∧ (canManage v = true ↔ userRole v = "owner" ∨ userRole v = "admin")
  ∧ (canEdit v = false →
     ∀ (e : PointerEvent) (k t : string),
       handleDragCardStart e k v = (v, e)
       ∧ handleDragOver e v = (v, e)
       ∧ handleDrop e v = (v, e)
       ∧ handleStartConnection k e v = v
       ∧ handleEndConnection k v = v
       ∧ handleDeleteConnection k t v = v
       ∧ tasks (handleMouseMove e v) = tasks v
       ∧ commits (handleMouseMove e v) = commits v
       ∧ tasks (handleMouseUp v) = tasks v
       ∧ commits (handleMouseUp v) = commits v).
Proof.
  split_and!.
  - unfold canEdit. rewrite !orb_true_iff, !role_is_true. tauto.
  - unfold canManage. rewrite !orb_true_iff, !role_is_true. tauto.
  - intros Hro e k t.
    unfold handleDragCardStart, handleDragOver, handleDrop,
      handleStartConnection, handleEndConnection, handleDeleteConnection.
    rewrite Hro. simpl. split_and!; try done.
    + unfold handleMouseMove.
      by destruct (connectingState v), (flowContainerRef v).
    + unfold handleMouseMove.
      by destruct (connectingState v), (flowContainerRef v).
    + apply mouseUp_cancels.
    + apply mouseUp_cancels.
Qed.

Lemma read_only_gestures_witness :
  canEdit viewerView = false
  ∧ handleDrop (pointerAt 700 300) viewerView = (viewerView, pointerAt 700 300)
  ∧ handleDeleteConnection "A" "B" viewerView = viewerView.
Proof.
  assert (canEdit viewerView = false) as Hro by reflexivity.
  destruct (read_only_gestures viewerView) as (_ & _ & Hgate).
  destruct (Hgate Hro (pointerAt 700 300) "A" "B")
    as (_ & _ & Hdrop & _ & _ & Hdel & _).
  split_and!; [exact Hro | exact Hdrop | exact Hdel].
Defined.

(** ** The geometry pass *)

Lemma elem_of_flat_map {A B} (f : A → list B) (xs : list A) (y : B) :
  y ∈ flat_map f xs ↔ ∃ x, x ∈ xs ∧ y ∈ f x.
Proof.
  rewrite list_elem_of_In, in_flat_map. split.
  - intros (x & Hx & Hy). exists x. by rewrite !list_elem_of_In.
  - intros (x & Hx & Hy). exists x. by rewrite <- !list_elem_of_In.
Qed.

Lemma flat_map_all_nil {A B} (f : A → list B) (xs : list A) :
  (∀ x, x ∈ xs → f x = []) → flat_map f xs = [].
Proof.
  induction xs as [|x xs IH]; intros Hall; simpl; [done|].
  rewrite (Hall x) by (by left). apply IH. intros y Hy. apply Hall. by right.
Qed.

Lemma connectorTo_elem (v : View) (src : ProjectTask) (sEl : HTMLDivElement)
    (t : string) (c : ConnectorInfo) :
  c ∈ connectorTo v src (sourcePos src sEl) t ↔
  ∃ tgt tEl, findTask t (tasks v) = Some tgt ∧ cardElement t v = Some tEl
             ∧ c = connectorInfo src tgt sEl tEl t.
Proof.
  unfold connectorTo.
  destruct (findTask t (tasks v)) as [tgt|].
  2:{ rewrite elem_of_nil. split; [done | by intros (? & ? & ? & _)]. }
  destruct (cardElement t v) as [tEl|].
  2:{ rewrite elem_of_nil. split; [done | by intros (? & ? & _ & ? & _)]. }
  rewrite list_elem_of_singleton. split.
  - intros ->. by exists tgt, tEl.
  - intros (? & ? & [= <-] & [= <-] & ->). done.
Qed.

Lemma connectorsOf_elem (v : View) (src : ProjectTask) (c : ConnectorInfo) :
  c ∈ connectorsOf v src ↔
  ∃ t sEl, t ∈ list_or_empty (nextTaskIds src)
           ∧ cardElement (task_id src) v = Some sEl
           ∧ c ∈ connectorTo v src (sourcePos src sEl) t.
Proof.
  unfold connectorsOf, list_or_empty.
  destruct (nextTaskIds src) as [[|t0 next]|]; cbn -[flat_map].
  - rewrite elem_of_nil. split; [done|]. intros (? & ? & H & _).
    by apply elem_of_nil in H.
  - destruct (cardElement (task_id src) v) as [sEl|].
    + rewrite (elem_of_flat_map _ (t0 :: next)). split.
      * intros (t & Ht & Hc). by exists t, sEl.
      * intros (t & ? & Ht & [= <-] & Hc). by exists t.
    + rewrite elem_of_nil. split; [done | by intros (? & ? & _ & ? & _)].
  - rewrite elem_of_nil. split; [done|]. intros (? & ? & H & _).
    by apply elem_of_nil in H.
Qed.

Lemma cardElement_size (v : View) (k : string) (el : HTMLDivElement) :
  cardElement k v = Some el → size (taskCardRefs v) ≠ 0%nat.
Proof.
  unfold cardElement. intros H Hsize.
  apply map_size_empty_iff in Hsize. rewrite Hsize, lookup_empty in H. done.
Qed.

Lemma newConnectors_elem (v : View) (c : ConnectorInfo) :
  c ∈ newConnectors v ↔
  is_Some (flowContainerRef v)
  ∧ ∃ src tgt sEl tEl,
      src ∈ tasks v
      ∧ targetId c ∈ list_or_empty (nextTaskIds src)
      ∧ findTask (targetId c) (tasks v) = Some tgt
      ∧ cardElement (task_id src) v = Some sEl
      ∧ cardElement (targetId c) v = Some tEl
      ∧ c = connectorInfo src tgt sEl tEl (targetId c).
Proof.
  unfold newConnectors. split.
  - destruct (flowContainerRef v) as [canvas|]; [|by intros ?%elem_of_nil].
    case_bool_decide; [by intros ?%elem_of_nil|].
    intros (src & Hsrc & Hc)%elem_of_flat_map.
    apply connectorsOf_elem in Hc as (t & sEl & Ht & HsEl & Hc).
    apply connectorTo_elem in Hc as (tgt & tEl & Htgt & HtEl & ->).
    split; [by eexists|]. by exists src, tgt, sEl, tEl.
  - intros ([canvas Hcanvas] & src & tgt & sEl & tEl & Hsrc & Ht & Htgt & HsEl & HtEl & Hc).
    rewrite Hcanvas.
    rewrite bool_decide_eq_false_2 by (by eapply cardElement_size).
    apply elem_of_flat_map. exists src. split; [done|].
    apply connectorsOf_elem. exists (targetId c), sEl. split_and!; [done..|].
    apply connectorTo_elem. by exists tgt, tEl.
Qed.

Lemma findTask_is_Some (k : string) (ts : list ProjectTask) :
  is_Some (findTask k ts) ↔ ∃ w, w ∈ ts ∧ task_id w = k.
Proof.
  split.
  - intros [w Hw]. exists w. by apply findTask_Some.
  - intros (w & Hin & Hk). destruct (findTask k ts) eqn:E; [by eexists|].
    by destruct (proj1 (findTask_None k ts) E w Hin).
Qed.

(** C4.  After a geometry recompute the connector list is the one the pass
    built, and it holds a connector for the pair [(s, t)] if and only if [t]
    is in the [nextTaskIds] of a node [s], a node [t] exists, and the cards
    of [s] and of [t] are both measurable.  An edge with an unmeasurable end
    is left out and every other edge keeps its connector; the pass is a
    total function, it raises nothing. *)
Theorem connector_iff_measurable_edge (v : View) (s t : string) :
  connectors (calculateConnectors v) = newConnectors v
  ∧ ((∃ c, c ∈ connectors (calculateConnectors v)
           ∧ sourceId c = s ∧ targetId c = t)
     ↔ edge (tasks v) s t
       ∧ (∃ w, w ∈ tasks v ∧ task_id w = t)
       ∧ measurable v s ∧ measurable v t).
Proof.
  split; [done|]. simpl. split.
  - intros (c & Hc & <- & <-).
    apply newConnectors_elem in Hc
      as (Hcanvas & src & tgt & sEl & tEl & Hsrc & Ht & Htgt & HsEl & HtEl & Hc).
    assert (sourceId c = task_id src) as -> by (by rewrite Hc).
    split_and!.
    + by exists src.
    + apply findTask_is_Some. by eexists.
    + split; [done | by eexists].
    + split; [done | by eexists].
  - intros ((src & Hsrc & <- & Ht) & Hw & [Hcanvas [sEl HsEl]] & [_ [tEl HtEl]]).
    apply findTask_is_Some in Hw as [tgt Htgt].
    exists (connectorInfo src tgt sEl tEl t). split_and!; [|done..].
    apply newConnectors_elem. split; [done|].
    by exists src, tgt, sEl, tEl.
Qed.

Lemma connector_iff_measurable_edge_witness :
  ∃ c, c ∈ connectors (calculateConnectors connectedView)
       ∧ sourceId c = "A" ∧ targetId c = "B".
Proof.
  apply (connector_iff_measurable_edge connectedView "A" "B").
  split_and!.
  - exists (mkTask "A" 0 0 ["B"]). split_and!; [by left | done | by left].
  - exists (mkTask "B" 500 0 []). split; [by right; left | done].
  - split; by eexists.
  - split; by eexists.
Defined.

Lemma num_or_zero (x : Q) : num_or x 0 == x.
Proof.
  unfold num_or. destruct (Qeq_bool x 0) eqn:E; [|reflexivity].
  symmetry. by apply Qeq_bool_iff.
Qed.

Lemma posX_positionOf (t : ProjectTask) : posX t == px (positionOf t).
Proof.
  unfold posX, positionOf. destruct (position t); simpl;
    [apply num_or_zero | reflexivity].
Qed.

Lemma posY_positionOf (t : ProjectTask) : posY t == py (positionOf t).
Proof.
  unfold posY, positionOf. destruct (position t); simpl;
    [apply num_or_zero | reflexivity].
Qed.

(** C5.  Every connector of a recompute joins a node [src] with the id
    [sourceId] to the first node [tgt] with the id [targetId], both with a
    mounted card.  Its [from] is the right-centre of the source card,
    [(x + width, y + height / 2)], and its [to] the left-centre of the
    target card, [(x, y + height / 2)], in the arithmetic of the code,
    where [(x, y)] is [position?.x || 0] and [position?.y || 0]: the
    position of the node, [(0, 0)] when the node has none. *)
Theorem connector_endpoints (v : View) (c : ConnectorInfo) :
  c ∈ connectors (calculateConnectors v) →
  ∃ src tgt sEl tEl,
    src ∈ tasks v ∧ task_id src = sourceId c
    ∧ findTask (targetId c) (tasks v) = Some tgt
    ∧ cardElement (sourceId c) v = Some sEl
    ∧ cardElement (targetId c) v = Some tEl
    ∧ px (conn_from c)
      = jadd (posX src) (rect_width (getBoundingClientRect sEl))
    ∧ py (conn_from c)
      = jadd (posY src) (jdiv (rect_height (getBoundingClientRect sEl)) 2)
    ∧ px (conn_to c) = posX tgt
    ∧ py (conn_to c)
      = jadd (posY tgt) (jdiv (rect_height (getBoundingClientRect tEl)) 2)
    ∧ posX src == px (positionOf src) ∧ posY src == py (positionOf src)
    ∧ posX tgt == px (positionOf tgt) ∧ posY tgt == py (positionOf tgt)
    ∧ (position src = None → posX src = 0 ∧ posY src = 0)
    ∧ (position tgt = None → posX tgt = 0 ∧ posY tgt = 0).
Proof.
  simpl. intros Hc.
  apply newConnectors_elem in Hc
    as (_ & src & tgt & sEl & tEl & Hsrc & _ & Htgt & HsEl & HtEl & Hc).
  exists src, tgt, sEl, tEl. rewrite Hc. simpl.
  rewrite Hc in Htgt, HtEl. simpl in Htgt, HtEl.
  split_and!; try done; try apply posX_positionOf; try apply posY_positionOf.
  - unfold posX, posY. by intros ->.
  - unfold posX, posY. by intros ->.
Qed.

Lemma connector_endpoints_witness :
  ∃ c, c ∈ connectors (calculateConnectors fractionalView)
       ∧ sourceId c = "A"
       ∧ px (conn_from c) = 1351079888211149 # 4503599627370496
       ∧ py (conn_from c) = 140
       ∧ px (conn_to c) = 500.
Proof.
  set (c := connectorInfo (mkTask "A" (fl (1 # 10)) 0 ["B"]) (mkTask "B" 500 0 [])
                          (mkDiv (fl (2 # 10)) 280) (mkDiv 380 280) "B").
  assert (c ∈ connectors (calculateConnectors fractionalView)) as Hin.
  { vm_compute. left. }
  destruct (connector_endpoints fractionalView c Hin)
    as (src & tgt & sEl & tEl & Hsrc & Hid & Htgt & HsEl & HtEl
        & Hfx & Hfy & Htx & _).
  exists c. split; [exact Hin|]. split; [reflexivity|].
  vm_compute in Htgt. injection Htgt as <-.
  vm_compute in HsEl. injection HsEl as <-.
  assert (src = mkTask "A" (fl (1 # 10)) 0 ["B"]) as ->.
  { simpl in Hsrc, Hid.
    apply elem_of_cons in Hsrc as [->|Hsrc]; [done|].
    apply list_elem_of_singleton in Hsrc as ->. discriminate Hid. }
  rewrite Hfx, Hfy, Htx. split_and!; reflexivity.
Defined.

(** ** Drop *)



(** The rounding on some values: 0.1, a sum that is not exact, ties to
    even above 2^53 and among the subnormals, and an exact integer. *)
Example fl_tenth : fl (1 # 10) = 3602879701896397 # 36028797018963968.
Proof. vm_compute. reflexivity. Qed.

Example jadd_tenths :
  jadd (fl (1 # 10)) (fl (2 # 10)) = 1351079888211149 # 4503599627370496.
Proof. vm_compute. reflexivity. Qed.

Example fl_ties_even :
  fl 9007199254740993 = 9007199254740992
  ∧ fl 9007199254740995 = 9007199254740996
  ∧ fl (3 # 2 ^ 1075) = 1 # 2 ^ 1073
  ∧ fl (1 # 2 ^ 1080) = 0
  ∧ jsub 1200 380 = 820.
Proof. vm_compute. by split_and!. Qed.




Lemma clamp_upper (p extent card : Q) :
  clamp p extent card <= Qmax 0 (jsub extent card).
Proof. apply Q.max_le_compat_l, Q.le_min_r. Qed.





(** ** Disconnect *)

Lemma findTask_unique (ts : list ProjectTask) (u : ProjectTask) :
  NoDup (task_id <$> ts) → u ∈ ts → findTask (task_id u) ts = Some u.
Proof.
  unfold findTask. induction ts as [|t ts IH]; intros Hnd Hin.
  - by apply elem_of_nil in Hin.
  - rewrite fmap_cons in Hnd. apply NoDup_cons in Hnd as [Hfresh Hnd].
    simpl. apply elem_of_cons in Hin as [->|Hin].
    + by rewrite bool_decide_eq_true_2.
    + rewrite bool_decide_eq_false_2; [by apply IH|].
      intros Heq. apply Hfresh. rewrite Heq. by apply list_elem_of_fmap_2.
Qed.

Lemma no_edges_no_connectors (v : View) :
  (∀ x y, ¬ edge (tasks v) x y) → newConnectors v = [].
Proof.
  intros Hnone. unfold newConnectors.
  destruct (flowContainerRef v); [|done]. case_bool_decide; [done|].
  apply flat_map_all_nil. intros u Hu. unfold connectorsOf.
  destruct (nextTaskIds u) as [[|y next]|] eqn:Hnext; [done| |done].
  destruct (Hnone (task_id u) y). exists u. split_and!; [done..|].
  rewrite Hnext. by left.
Qed.

Lemma deleteConnection_found (s t : string) (v : View) (src : ProjectTask) :
  canEdit v = true → findTask s (tasks v) = Some src →
  handleDeleteConnection s t v =
  onUpdateTaskConnections s
    (filter (fun k => k ≠ t) (list_or_empty (nextTaskIds src))) v.
Proof.
  intros Hedit Hsrc. unfold handleDeleteConnection. rewrite Hedit, Hsrc. simpl.
  by destruct (findTask_Some _ _ _ Hsrc) as [_ ->].
Qed.

Lemma deleteConnection_missing (s t : string) (v : View) :
  findTask s (tasks v) = None → handleDeleteConnection s t v = v.
Proof.
  intros Hsrc. unfold handleDeleteConnection. rewrite Hsrc.
  by destruct (negb (canEdit v)).
Qed.

(** C6.  For an editor, [disconnect(s, t)] replaces the [nextTaskIds] of
    the node [s] (node ids being unique) by the same sequence without any
    occurrence of [t], and leaves every other node as it was; it commits that
    sequence as one bulk replace.  On a graph whose only edge is [s -> t] it
    leaves no edge, and the recompute that follows leaves no connector. *)
Theorem disconnect_removes_edge (s t : string) (v : View) :
  canEdit v = true →
  let v' := disconnect s t v in
  (NoDup (task_id <$> tasks v) →
   tasks v' =
   map (fun u => if bool_decide (task_id u = s)
                 then setNextTaskIds
                        (filter (fun k => k ≠ t) (list_or_empty (nextTaskIds u))) u
                 else u) (tasks v))
  ∧ (∀ src, findTask s (tasks v) = Some src →
     commits v' = commits v
       ++ [UpdateTaskConnections s
             (filter (fun k => k ≠ t) (list_or_empty (nextTaskIds src)))])
  ∧ ((∀ x y, edge (tasks v) x y → x = s ∧ y = t) →
     (∀ x y, ¬ edge (tasks v') x y)
     ∧ connectors (calculateConnectors v') = []).
Proof.
  intros Hedit v'. subst v'. unfold disconnect. split_and!.
  - intros Hnd. destruct (findTask s (tasks v)) as [src|] eqn:Hsrc.
    + rewrite (deleteConnection_found s t v src Hedit Hsrc). simpl.
      unfold setNodeConnections. apply map_ext_in. intros u Hu.
      case_bool_decide as Hid; [|done].
      apply list_elem_of_In in Hu.
      pose proof (findTask_unique _ u Hnd Hu) as Hu'.
      rewrite Hid, Hsrc in Hu'. by injection Hu' as ->.
    + rewrite (deleteConnection_missing s t v Hsrc).
      rewrite <- (map_id (tasks v)) at 1. apply map_ext_in. intros u Hu.
      apply list_elem_of_In in Hu.
      rewrite bool_decide_eq_false_2; [done|].
      by apply (proj1 (findTask_None s (tasks v)) Hsrc).
  - intros src Hsrc. by rewrite (deleteConnection_found s t v src Hedit Hsrc).
  - intros Honly.
    assert (∀ x y, ¬ edge (tasks (handleDeleteConnection s t v)) x y) as Hnone.
    { intros x y (u' & Hu' & Hx & Hy).
      destruct (findTask s (tasks v)) as [src|] eqn:Hsrc.
      - rewrite (deleteConnection_found s t v src Hedit Hsrc) in Hu'.
        simpl in Hu'. unfold setNodeConnections in Hu'.
        apply list_elem_of_In, in_map_iff in Hu' as (u & <- & Hu).
        apply list_elem_of_In in Hu.
        case_bool_decide as Hid.
        + simpl in Hy. apply list_elem_of_filter in Hy as [Hyt Hy].
          destruct (findTask_Some _ _ _ Hsrc) as [Hin Hs].
          destruct (Honly s y) as [_ ->]; [by exists src | done].
        + destruct (Honly (task_id u) y) as [Hus _]; [by exists u | done].
      - rewrite (deleteConnection_missing s t v Hsrc) in Hu'.
        destruct (Honly x y) as [-> _]; [by exists u'|].
        by apply (proj1 (findTask_None _ _) Hsrc u' Hu'). }
    split; [done|]. simpl. by apply no_edges_no_connectors.
Qed.

Lemma disconnect_removes_edge_witness :
  tasks (disconnect "A" "B" connectedView) = tasks sampleView
  ∧ connectors (calculateConnectors (disconnect "A" "B" connectedView)) = [].
Proof.
  destruct (disconnect_removes_edge "A" "B" connectedView)
    as (Htasks & _ & Hempty); [reflexivity|].
  split.
  - rewrite Htasks; [reflexivity|]. vm_compute.
    apply NoDup_cons. split; [by intros ?%list_elem_of_singleton|].
    apply NoDup_singleton.
  - apply Hempty. intros x y (u & Hu & <- & Hy).
    apply elem_of_cons in Hu as [->|Hu].
    + apply list_elem_of_singleton in Hy as ->. done.
    + apply list_elem_of_singleton in Hu as ->. by apply elem_of_nil in Hy.
Defined.

(** ** Change notifications *)

Lemma onProjectUpdate_reload (p : Payload) :
  WindowLocationReload ∈ onProjectUpdate p ↔
  pl_table p = "projects" ∧ eventType p = "UPDATE".
Proof.
  unfold onProjectUpdate.
  destruct (bool_decide (pl_table p = "projects")
            && bool_decide (eventType p = "UPDATE")) eqn:E.
  - apply andb_true_iff in E as [?%bool_decide_eq_true ?%bool_decide_eq_true].
    split; [done | by left].
  - split; [by intros ?%elem_of_nil|]. intros [Ht Hu].
    rewrite !bool_decide_eq_true_2 in E by done. done.
Qed.

Lemma onProjectUpdate_only_reload (p : Payload) (r : Reaction) :
  r ∈ onProjectUpdate p → r = WindowLocationReload.
Proof.
  unfold onProjectUpdate. destruct (_ && _).
  - by intros ?%list_elem_of_singleton.
  - by intros ?%elem_of_nil.
Qed.

Lemma deliver_elem (projectId : string) (p : Payload) (r : Reaction) :
  r ∈ deliver (subscribeToProjectUpdates projectId onProjectUpdate) p ↔
  r ∈ onProjectUpdate p
  ∧ delivered (subscribeToProjectUpdates projectId onProjectUpdate) p.
Proof.
  unfold deliver, delivered. rewrite elem_of_flat_map. split.
  - intros (b & Hb & Hr). destruct (matches b.1 p) eqn:Hm.
    + split; [|by exists b]. simpl in Hb.
      apply elem_of_cons in Hb as [->|Hb]; [done|].
      by apply list_elem_of_singleton in Hb as ->.
    + by apply elem_of_nil in Hr.
  - intros (Hr & b & Hb & Hm). exists b. split; [done|]. rewrite Hm.
    simpl in Hb. apply elem_of_cons in Hb as [->|Hb]; [done|].
    by apply list_elem_of_singleton in Hb as ->.
Qed.

Lemma delivered_table (projectId : string) (p : Payload) :
  delivered (subscribeToProjectUpdates projectId onProjectUpdate) p →
  pl_table p = "projects" ∨ pl_table p = "project_members".
Proof.
  intros (b & Hb & Hm). simpl in Hb. unfold matches in Hm.
  apply andb_true_iff in Hm as [Hm _].
  apply andb_true_iff in Hm as [_ Ht%bool_decide_eq_true].
  apply elem_of_cons in Hb as [->|Hb]; [by left|].
  apply list_elem_of_singleton in Hb as ->. by right.
Qed.

(** C8, as the code has it.  A notification makes the client reload if and
    only if it is delivered and reports an [UPDATE] of the table
    [projects]; the callback alone reloads exactly on that table and event.
    The subscription the component opens for a project is one channel,
    [project-<id>], with two bindings, on [projects] and on
    [project_members], both with the one callback.  A
    notification never sets off anything but the reload: a member-list
    change reaches the same callback and sets off nothing, no refetch; a
    change of the invitation list is not delivered at all.  The refetch of
    members and invitations is what [loadData] of the members dialog does
    after its own requests. *)
Theorem reload_iff_project_update (projectId : string) (p : Payload) :
  let ch := subscribeToProjectUpdates projectId onProjectUpdate in
  (WindowLocationReload ∈ onProjectUpdate p ↔
   pl_table p = "projects" ∧ eventType p = "UPDATE")
  ∧ (WindowLocationReload ∈ deliver ch p ↔
     delivered ch p ∧ pl_table p = "projects" ∧ eventType p = "UPDATE")
  ∧ (∀ r, r ∈ deliver ch p → r = WindowLocationReload)
  ∧ (projectId ≠ "" → projectSubscription (Some projectId) = Some ch)
  ∧ topic ch = "project-" +:+ projectId
  ∧ (table ∘ fst) <$> bindings ch = ["projects"; "project_members"]
  ∧ snd <$> bindings ch = [onProjectUpdate; onProjectUpdate]
  ∧ (pl_table p = "project_members" → deliver ch p = [])
  ∧ (pl_schema p = "public" → pl_table p = "project_members" →
     ("project_id", projectId) ∈ columns p → delivered ch p)
  ∧ (pl_table p = "project_invitations" → ¬ delivered ch p ∧ deliver ch p = [])
  ∧ (∀ r, GetProjectMembers projectId ∈ loadData projectId r).
Proof.
  intros ch. subst ch.
  assert (∀ q, (∀ r, r ∈ deliver (subscribeToProjectUpdates projectId
                                     onProjectUpdate) q → False) →
               deliver (subscribeToProjectUpdates projectId onProjectUpdate) q = [])
    as Hnil.
  { intros q Hq. destruct (deliver _ q) as [|r rs]; [done|].
    destruct (Hq r). by left. }
  split_and!.
  - apply onProjectUpdate_reload.
  - rewrite deliver_elem, onProjectUpdate_reload. tauto.
  - intros r [Hr _]%deliver_elem. by apply onProjectUpdate_only_reload in Hr.
  - intros Hid. unfold projectSubscription. by destruct projectId.
  - done.
  - done.
  - done.
  - intros Ht. apply Hnil. intros r [Hr _]%deliver_elem.
    pose proof (onProjectUpdate_only_reload _ _ Hr) as ->.
    apply onProjectUpdate_reload in Hr as [Hp _]. by rewrite Ht in Hp.
  - intros Hs Ht Hcol.
    exists ({| event := "*"; schema := "public"; table := "project_members";
               row_filter := "project_id=eq." +:+ projectId |}, onProjectUpdate).
    split; [by right; left|]. unfold matches. simpl.
    rewrite Hs, Ht, !bool_decide_eq_true_2 by done. simpl.
    apply existsb_exists. exists ("project_id", projectId).
    split; [by apply list_elem_of_In | by apply bool_decide_eq_true].
  - intros Ht.
    assert (¬ delivered (subscribeToProjectUpdates projectId onProjectUpdate) p)
      as Hnot.
    { intros Hd%delivered_table. rewrite Ht in Hd. by destruct Hd. }
    split; [done|]. apply Hnil. by intros r [_ Hd]%deliver_elem.
  - intros r. unfold loadData. by left.
Qed.

Lemma reload_iff_project_update_witness :
  deliver (subscribeToProjectUpdates "p1" onProjectUpdate)
          (change "projects" "UPDATE" "id" "p1") = [WindowLocationReload]
  ∧ deliver (subscribeToProjectUpdates "p1" onProjectUpdate)
            (change "project_members" "INSERT" "project_id" "p1") = []
  ∧ deliver (subscribeToProjectUpdates "p1" onProjectUpdate)
            (change "project_invitations" "INSERT" "project_id" "p1") = [].
Proof.
  destruct (reload_iff_project_update "p1"
              (change "project_members" "INSERT" "project_id" "p1"))
    as (_ & _ & _ & _ & _ & _ & _ & Hmembers & _ & _).
  destruct (reload_iff_project_update "p1"
              (change "project_invitations" "INSERT" "project_id" "p1"))
    as (_ & _ & _ & _ & _ & _ & _ & _ & _ & Hinvitations & _).
  split_and!.
  - reflexivity.
  - by apply Hmembers.
  - by apply Hinvitations.
Defined.

(** C8 as stated fails: a new member row is notified on the project's own
    channel, and the client neither reloads nor refetches the members. *)
Lemma member_change_refetches_nothing :
  ¬ notification_policy "p1" (change "project_members" "INSERT" "project_id" "p1").
Proof.
  intros [_ Hrefetch]. specialize (Hrefetch eq_refl).
  vm_compute in Hrefetch. by apply elem_of_nil in Hrefetch.
Qed.

(** ** Project records *)

Lemma toProjectData_tasks (row : ProjectRow) (r : option string) :
  tasks_defaulted row (toProjectData row r).
Proof. unfold tasks_defaulted. simpl. by destruct (tasks_data row). Qed.

(** C9.  Whatever [getProject], [updateProject], [createProject] and
    [getProjects] resolve with was built from the rows the client returned,
    and its [tasks] field is the stored task array, or the empty array when
    [tasks_data] is null or absent: it is never null nor undefined.  A
    successful response always resolves; each method rejects only on an
    error response, and [createProject] also without a user. *)
Theorem tasks_never_null (db : ProjectsTable) :
  (∀ id d, getProject db id = Resolved d →
     ∃ row, selectById db id = Data row ∧ tasks_defaulted row d)
  ∧ (∀ id updates d, updateProject db id updates = Resolved d →
     ∃ row, updateById db id updates = Data row ∧ tasks_defaulted row d)
  ∧ (∀ user title goal targetDate tasks ganttData d,
     createProject user db title goal targetDate tasks ganttData = Resolved d →
     ∃ u ins row, user = Some u ∧ insertRow db ins = Data row
                  ∧ tasks_defaulted row d)
  ∧ (∀ ds, getProjects db = Resolved ds →
     ∃ rows, selectAll db = Data rows ∧ Forall2 tasks_defaulted rows ds)
  ∧ (∀ row d, tasks_defaulted row d →
     is_Some (pd_tasks d)
     ∧ (tasks_data row = None → pd_tasks d = Some [])
     ∧ (∀ ts, tasks_data row = Some ts → pd_tasks d = Some ts))
  ∧ (∀ id row, selectById db id = Data row →
     ∃ d, getProject db id = Resolved d)
  ∧ (∀ id updates row, updateById db id updates = Data row →
     ∃ d, updateProject db id updates = Resolved d)
  ∧ (∀ rows, selectAll db = Data rows → ∃ ds, getProjects db = Resolved ds)
  ∧ (∀ u row title goal targetDate tasks ganttData,
     (∀ ins, insertRow db ins = Data row) →
     ∃ d, createProject (Some u) db title goal targetDate tasks ganttData
          = Resolved d).
Proof.
  split_and!.
  - intros id d H. unfold getProject in H.
    destruct (selectById db id) as [row|err]; [|done]. injection H as <-.
    exists row. split; [done | apply toProjectData_tasks].
  - intros id updates d H. unfold updateProject in H.
    destruct (updateById db id updates) as [row|err]; [|done].
    injection H as <-. exists row. split; [done | apply toProjectData_tasks].
  - intros [u|] title goal targetDate tasks ganttData d H; [|done].
    simpl in H.
    destruct (insertRow db _) as [row|err] eqn:E; [|done].
    injection H as <-. eexists u, _, row.
    split_and!; [done | exact E | apply toProjectData_tasks].
  - intros ds H. unfold getProjects in H.
    destruct (selectAll db) as [rows|err]; [|done]. injection H as <-.
    exists rows. split; [done|].
    induction rows as [|row rows IH]; simpl; constructor;
      [apply toProjectData_tasks | done].
  - intros row d Hd. unfold tasks_defaulted in Hd. rewrite Hd.
    split_and!; [by eexists | by intros -> | by intros ts ->].
  - intros id row E. unfold getProject. rewrite E. by eexists.
  - intros id updates row E. unfold updateProject. rewrite E. by eexists.
  - intros rows E. unfold getProjects. rewrite E. by eexists.
  - intros u row title goal targetDate tasks ganttData E.
    unfold createProject. rewrite E. by eexists.
Qed.

Lemma tasks_never_null_witness :
  ∃ d, getProject (sampleDb None) "p1" = Resolved d
       ∧ pd_tasks d = Some [].
Proof.
  destruct (tasks_never_null (sampleDb None))
    as (Hget & _ & _ & _ & Hnull & Hres & _).
  destruct (Hres "p1" (sampleRow None) eq_refl) as [d Hd].
  exists d. split; [done|].
  destruct (Hget _ _ Hd) as (row & [= <-] & Hrow).
  destruct (Hnull (sampleRow None) d Hrow) as (_ & Hempty & _).
  by apply Hempty.
Defined.

(** ** The role of the current user *)

(** C10.  [getUserRole] always resolves, it never rejects: with [null] when
    no user is signed in, with [null] when the membership query fails, which
    includes a query that matches no row, or several, and with the role of
    the one matching row otherwise. *)
Theorem getUserRole_never_throws (user : option User)
    (members : string → string → Response (list MemberRole))
    (projectId : string) :
  ∃ r, getUserRole user members projectId = Resolved r
       ∧ (user = None → r = None)
       ∧ (∀ u err, user = Some u →
            members projectId (user_id u) = Error err → r = None)
       ∧ (∀ u, user = Some u →
            members projectId (user_id u) = Data [] → r = None)
       ∧ (∀ u row, user = Some u →
            members projectId (user_id u) = Data [row] → r = Some (role row))
       ∧ (∀ u row row' rows, user = Some u →
            members projectId (user_id u) = Data (row :: row' :: rows) →
            r = None).
Proof.
  unfold getUserRole. destruct user as [u|].
  2:{ exists None. by split_and!. }
  destruct (members projectId (user_id u)) as [[|row [|row' rows]]|err] eqn:E;
    simpl;
    [exists None | exists (Some (role row)) | exists None | exists None];
    split_and!; intros; simplify_eq; congruence.
Qed.

Lemma getUserRole_never_throws_witness :
  getUserRole None (fun _ _ => Data [ {| role := "owner" |} ]) "p1"
  = Resolved None
  ∧ getUserRole (Some {| user_id := "u1" |}) (fun _ _ => Data []) "p1"
    = Resolved None
  ∧ getUserRole (Some {| user_id := "u1" |})
                (fun _ _ => Data [ {| role := "admin" |} ]) "p1"
    = Resolved (Some "admin").
Proof.
  destruct (getUserRole_never_throws None
              (fun _ _ => Data [ {| role := "owner" |} ]) "p1")
    as (r1 & H1 & Hnone & _).
  destruct (getUserRole_never_throws (Some {| user_id := "u1" |})
              (fun _ _ => Data []) "p1")
    as (r2 & H2 & _ & _ & Hempty & _).
  destruct (getUserRole_never_throws (Some {| user_id := "u1" |})
              (fun _ _ => Data [ {| role := "admin" |} ]) "p1")
    as (r3 & H3 & _ & _ & _ & Hone & _).
  rewrite H1, H2, H3.
  rewrite (Hnone eq_refl), (Hempty _ eq_refl eq_refl),
    (Hone _ _ eq_refl eq_refl).
  done.
Defined.

(** * Further properties of the code *)

(** ** Edges under connect and disconnect *)

Lemma edge_setNodeConnections (a : string) (next : list string)
    (ts : list ProjectTask) (s t : string) :
  edge (setNodeConnections a next ts) s t ↔
  (s = a ∧ is_Some (findTask a ts) ∧ t ∈ next) ∨ (s ≠ a ∧ edge ts s t).
Proof.
  unfold edge, setNodeConnections. split.
  - intros (u' & Hu' & Hs & Ht).
    apply list_elem_of_In, in_map_iff in Hu' as (u & <- & Hu).
    apply list_elem_of_In in Hu. case_bool_decide as Hid.
    + left. simpl in Hs, Ht. split_and!; [congruence | | done].
      apply findTask_is_Some. by exists u.
    + right. split; [congruence|]. by exists u.
  - intros [(-> & Hsrc & Ht)|(Hne & u & Hu & Hs & Ht)].
    + apply findTask_is_Some in Hsrc as (u & Hu & Hid).
      exists (setNextTaskIds next u). split_and!; [|done..].
      apply list_elem_of_In, in_map_iff. exists u.
      rewrite bool_decide_eq_true_2 by done.
      split; [done | by apply list_elem_of_In].
    + exists u. split_and!; [|done..].
      apply list_elem_of_In, in_map_iff. exists u.
      rewrite bool_decide_eq_false_2 by congruence.
      split; [done | by apply list_elem_of_In].
Qed.

Lemma edge_of_source (ts : list ProjectTask) (a t : string) (src : ProjectTask) :
  NoDup (task_id <$> ts) → findTask a ts = Some src →
  edge ts a t ↔ t ∈ list_or_empty (nextTaskIds src).
Proof.
  intros Hnd Hsrc. destruct (findTask_Some _ _ _ Hsrc) as [Hin Hid]. split.
  - intros (u & Hu & Hua & Ht).
    pose proof (findTask_unique _ u Hnd Hu) as Hfu.
    rewrite Hua, Hsrc in Hfu. by injection Hfu as ->.
  - intros Ht. by exists src.
Qed.

Lemma connect_reaches_store (a b : string) (e : PointerEvent) (v : View)
    (src : ProjectTask) :
  canEdit v = true → is_Some (flowContainerRef v) → a ≠ b →
  findTask a (tasks v) = Some src →
  let next := array_from_set (list_or_empty (nextTaskIds src) ++ [b]) in
  tasks (connect a b e v) = setNodeConnections a next (tasks v)
  ∧ commits (connect a b e v) = commits v ++ [UpdateTaskConnections a next]
  ∧ connectingState (connect a b e v) = None
  ∧ userRole (connect a b e v) = userRole v
  ∧ flowContainerRef (connect a b e v) = flowContainerRef v
  ∧ taskCardRefs (connect a b e v) = taskCardRefs v.
Proof.
  intros Hedit [c Hc] Hne Hsrc next. unfold connect.
  destruct (startConnection_mounted a e v c Hedit Hc) as [p ->].
  by rewrite (endConnection_connects b _ {| fromId := a; fromPos := p |} src).
Qed.

(** X1.  A connect by an editor on a mounted canvas, from an existing node
    [a] to another id [b], adds the edge [a -> b] and changes no other edge
    (node ids being unique). *)
Theorem connect_adds_one_edge (a b : string) (e : PointerEvent) (v : View) :
  canEdit v = true → is_Some (flowContainerRef v) → a ≠ b →
  is_Some (findTask a (tasks v)) → NoDup (task_id <$> tasks v) →
  ∀ s t, edge (tasks (connect a b e v)) s t ↔
         edge (tasks v) s t ∨ (s = a ∧ t = b).
Proof.
  intros Hedit Hc Hne [src Hsrc] Hnd s t.
  destruct (connect_reaches_store a b e v src Hedit Hc Hne Hsrc) as (-> & _).
  rewrite edge_setNodeConnections, array_from_set_elem, elem_of_app,
    list_elem_of_singleton.
  rewrite <- (edge_of_source (tasks v) a t src Hnd Hsrc).
  destruct (decide (s = a)) as [->|Hsa].
  - split.
    + intros [(_ & _ & [?| ->])|[? _]]; [by left | by right | done].
    + intros [?|[_ ->]]; left; (split_and!; [done | by eexists |]);
        [by left | by right].
  - split.
    + intros [[? _]|[_ ?]]; [done | by left].
    + intros [?|[? _]]; [by right | done].
Qed.

Lemma connect_adds_one_edge_witness :
  edge (tasks (connect "A" "B" (pointerAt 10 10) sampleView)) "A" "B".
Proof.
  apply (connect_adds_one_edge "A" "B" (pointerAt 10 10) sampleView);
    [reflexivity | by eexists | discriminate | by eexists | | by right].
  vm_compute. apply NoDup_cons. split; [by intros ?%list_elem_of_singleton|].
  apply NoDup_singleton.
Defined.

Lemma array_from_set_snoc_new (xs : list string) (b : string) :
  NoDup xs → b ∉ xs → array_from_set (xs ++ [b]) = xs ++ [b].
Proof.
  intros Hnd Hb. apply array_from_set_id, NoDup_app.
  split_and!; [done | | apply NoDup_singleton].
  intros x Hx ->%list_elem_of_singleton. done.
Qed.

Lemma array_from_set_snoc_old (xs : list string) (b : string) :
  NoDup xs → b ∈ xs → array_from_set (xs ++ [b]) = xs.
Proof.
  intros Hnd Hb. unfold array_from_set. rewrite fold_left_app. simpl.
  fold (array_from_set xs). rewrite array_from_set_id by done.
  unfold set_add. by rewrite bool_decide_eq_true_2.
Qed.

(** X2.  The list a connect stores for [a] never holds an id twice.  When
    the list of [a] had no duplicates, a new target is appended at its end
    and the order of the others is kept; a target already there leaves the
    list as it was. *)
Theorem connect_keeps_order (a b : string) (e : PointerEvent) (v : View)
    (src : ProjectTask) :
  canEdit v = true → is_Some (flowContainerRef v) → a ≠ b →
  findTask a (tasks v) = Some src →
  ∃ next, findTask a (tasks (connect a b e v)) ≫= nextTaskIds = Some next
          ∧ NoDup next
          ∧ (NoDup (list_or_empty (nextTaskIds src)) →
             next = if bool_decide (b ∈ list_or_empty (nextTaskIds src))
                    then list_or_empty (nextTaskIds src)
                    else list_or_empty (nextTaskIds src) ++ [b]).
Proof.
  intros Hedit Hc Hne Hsrc.
  destruct (connect_reaches_store a b e v src Hedit Hc Hne Hsrc) as (-> & _).
  exists (array_from_set (list_or_empty (nextTaskIds src) ++ [b])).
  split_and!.
  - rewrite findTask_setNodeConnections, Hsrc. simpl.
    destruct (findTask_Some _ _ _ Hsrc) as [_ Hid].
    by rewrite bool_decide_eq_true_2.
  - apply array_from_set_NoDup.
  - intros Hnd. case_bool_decide.
    + by apply array_from_set_snoc_old.
    + by apply array_from_set_snoc_new.
Qed.

Lemma connect_keeps_order_witness :
  ∃ next, findTask "A" (tasks (connect "A" "B" (pointerAt 10 10) sampleView))
            ≫= nextTaskIds = Some next
          ∧ next = ["B"].
Proof.
  destruct (connect_keeps_order "A" "B" (pointerAt 10 10) sampleView
              (mkTask "A" 0 0 []))
    as (next & Hnext & _ & Horder);
    [reflexivity | by eexists | discriminate | reflexivity |].
  exists next. split; [exact Hnext|]. apply Horder. apply NoDup_nil_2.
Defined.

(** X3.  A disconnect by an editor removes the edge [s -> t] and no other
    edge (node ids being unique); when [s] is no node it changes nothing. *)
Theorem disconnect_removes_one_edge (s t : string) (v : View) :
  canEdit v = true → NoDup (task_id <$> tasks v) →
  (∀ x y, edge (tasks (disconnect s t v)) x y ↔
          edge (tasks v) x y ∧ ¬ (x = s ∧ y = t))
  ∧ (findTask s (tasks v) = None → disconnect s t v = v).
Proof.
  intros Hedit Hnd. unfold disconnect.
  split; [|apply deleteConnection_missing].
  intros x y. destruct (findTask s (tasks v)) as [src|] eqn:Hsrc.
  - rewrite (deleteConnection_found s t v src Hedit Hsrc). simpl.
    rewrite edge_setNodeConnections, list_elem_of_filter.
    rewrite <- (edge_of_source (tasks v) s y src Hnd Hsrc).
    destruct (decide (x = s)) as [->|Hxs].
    + split.
      * intros [(_ & _ & Hyt & He)|[? _]]; [|done].
        split; [done | by intros [_ ?]].
      * intros [He Hnot]. left. split_and!; [done | by eexists | | done].
        intros ->. by apply Hnot.
    + split.
      * intros [[? _]|[_ He]]; [done|]. split; [done | by intros [? _]].
      * intros [He _]. by right.
  - rewrite (deleteConnection_missing s t v Hsrc). split; [|by intros [? _]].
    intros He. split; [done|]. intros [-> _].
    destruct He as (u & Hu & Hid & _).
    by apply (proj1 (findTask_None _ _) Hsrc u Hu).
Qed.

Lemma disconnect_removes_one_edge_witness :
  ¬ edge (tasks (disconnect "A" "B" connectedView)) "A" "B".
Proof.
  destruct (disconnect_removes_one_edge "A" "B" connectedView) as [Hedges _];
    [reflexivity | |].
  - vm_compute. apply NoDup_cons. split; [by intros ?%list_elem_of_singleton|].
    apply NoDup_singleton.
  - intros He. apply Hedges in He as [_ Hnot]. by apply Hnot.
Defined.

Lemma filter_snoc_out (xs : list string) (b : string) :
  b ∉ xs → filter (fun k => k ≠ b) (xs ++ [b]) = xs.
Proof.
  intros Hb. rewrite filter_app.
  assert (filter (fun k => k ≠ b) [b] = []) as ->.
  { rewrite filter_cons. by case_decide. }
  rewrite app_nil_r. induction xs as [|x xs IH]; [done|].
  apply not_elem_of_cons in Hb as [Hxb Hb]. rewrite filter_cons.
  case_decide; [|done]. by rewrite IH.
Qed.

(** X4.  Connecting [a] to a new target [b] and then disconnecting [b]
    gives back the task list as it was, list order included, when the list
    of [a] is set and free of duplicates and node ids are unique; the store
    receives two updates. *)
Theorem connect_then_disconnect (a b : string) (e : PointerEvent) (v : View)
    (src : ProjectTask) (next : list string) :
  canEdit v = true → is_Some (flowContainerRef v) → a ≠ b →
  NoDup (task_id <$> tasks v) →
  findTask a (tasks v) = Some src → nextTaskIds src = Some next →
  NoDup next → b ∉ next →
  tasks (disconnect a b (connect a b e v)) = tasks v
  ∧ commits (disconnect a b (connect a b e v)) =
    commits v ++ [UpdateTaskConnections a (next ++ [b]);
                  UpdateTaskConnections a next].
Proof.
  intros Hedit Hc Hne Hnd Hsrc Hnext Hndn Hb.
  destruct (connect_reaches_store a b e v src Hedit Hc Hne Hsrc)
    as (Ht & Hcm & _ & Hrole & _).
  rewrite Hnext in Ht, Hcm. simpl in Ht, Hcm.
  rewrite array_from_set_snoc_new in Ht, Hcm by done.
  destruct (findTask_Some _ _ _ Hsrc) as [Hin Hid].
  assert (findTask a (tasks (connect a b e v))
          = Some (setNextTaskIds (next ++ [b]) src)) as Hsrc1.
  { rewrite Ht, findTask_setNodeConnections, Hsrc. simpl.
    by rewrite bool_decide_eq_true_2. }
  unfold disconnect.
  rewrite (deleteConnection_found a b _ _
             (eq_trans (canEdit_role _ v Hrole) Hedit) Hsrc1).
  simpl. rewrite filter_snoc_out by done. split.
  - rewrite Ht. unfold setNodeConnections. rewrite map_map.
    rewrite <- (map_id (tasks v)) at 2. apply map_ext_in. intros u Hu.
    apply list_elem_of_In in Hu.
    destruct (decide (task_id u = a)) as [Hua|Hua].
    + rewrite (bool_decide_eq_true_2 _ Hua). simpl.
      rewrite (bool_decide_eq_true_2 _ Hua).
      pose proof (findTask_unique _ u Hnd Hu) as Hfu.
      rewrite Hua, Hsrc in Hfu. injection Hfu as <-.
      destruct src. simpl in Hnext. by rewrite Hnext.
    + by rewrite !(bool_decide_eq_false_2 _ Hua).
  - rewrite Hcm, <- app_assoc. done.
Qed.

Lemma connect_then_disconnect_witness :
  tasks (disconnect "A" "B" (connect "A" "B" (pointerAt 10 10) sampleView))
  = tasks sampleView.
Proof.
  apply (connect_then_disconnect "A" "B" (pointerAt 10 10) sampleView
           (mkTask "A" 0 0 []) []);
    [reflexivity | by eexists | discriminate | | reflexivity | reflexivity
     | apply NoDup_nil_2 | apply not_elem_of_nil].
  vm_compute. apply NoDup_cons. split; [by intros ?%list_elem_of_singleton|].
  apply NoDup_singleton.
Defined.

(** ** Moving a card *)

Lemma handleDrop_cases (event : PointerEvent) (v : View) :
  (handleDrop event v).1 = v
  ∨ ∃ dragged c,
      canEdit v = true ∧ truthy (draggedTaskIdRef v) = Some dragged
      ∧ flowContainerRef v = Some c
      ∧ (handleDrop event v).1 =
        setTimeout 0
          (setDragged None (dragOffsetRef v)
             (onUpdateTaskPosition dragged (dropPosition event dragged c v) v)).
Proof.
  unfold handleDrop. destruct (canEdit v); simpl; [|by left].
  destruct (truthy (draggedTaskIdRef v)) as [dragged|]; [|by left].
  destruct (flowContainerRef v) as [c|]; [|by left].
  right. by exists dragged, c.
Qed.

(** X5.  Whatever a drop does, it keeps the task list in place: every node
    keeps its id, its title and its [nextTaskIds], so the edge set is the
    same, and a node whose id is not the dragged one is not touched at all. *)
Theorem drop_keeps_graph (event : PointerEvent) (v : View) :
  let v' := (handleDrop event v).1 in
  length (tasks v') = length (tasks v)
  ∧ (∀ i u, tasks v !! i = Some u →
       ∃ u', tasks v' !! i = Some u'
             ∧ task_id u' = task_id u ∧ title u' = title u
             ∧ nextTaskIds u' = nextTaskIds u
             ∧ (truthy (draggedTaskIdRef v) ≠ Some (task_id u) → u' = u))
  ∧ (∀ s t, edge (tasks v') s t ↔ edge (tasks v) s t).
Proof.
  intros v'. subst v'.
  destruct (handleDrop_cases event v)
    as [->|(dragged & c & _ & Hdrag & _ & ->)].
  { split_and!; [done | | done]. intros i u Hu. by exists u. }
  simpl. unfold updateNodePosition. split_and!.
  - apply length_map.
  - intros i u Hu.
    exists (if bool_decide (task_id u = dragged)
            then setPosition (dropPosition event dragged c v) u else u).
    split.
    + change (map ?f ?l) with (f <$> l). by rewrite list_lookup_fmap, Hu.
    + case_bool_decide as Hid; simpl; split_and!; try done.
      rewrite Hdrag. intros Hne. destruct Hne. by rewrite Hid.
  - intros s t. unfold edge. split.
    + intros (u' & Hu' & Hs & Ht).
      apply list_elem_of_In, in_map_iff in Hu' as (u & <- & Hu).
      exists u. split; [by apply list_elem_of_In|]. by case_bool_decide.
    + intros (u & Hu & Hs & Ht).
      exists (if bool_decide (task_id u = dragged)
              then setPosition (dropPosition event dragged c v) u else u).
      split; [|by case_bool_decide].
      apply list_elem_of_In, in_map_iff. exists u.
      split; [done | by apply list_elem_of_In].
Qed.

(** X8.  A drop ends the drag: a second drop without a new drag start
    leaves the whole view as the first drop left it, with nothing more
    committed; and a drop with no drag in progress changes nothing. *)
Theorem drop_ends_drag (e1 e2 : PointerEvent) (v : View) :
  let v1 := (handleDrop e1 v).1 in
  (handleDrop e2 v1).1 = v1
  ∧ (truthy (draggedTaskIdRef v) = None → v1 = v).
Proof.
  intros v1. subst v1.
  assert (∀ e w, truthy (draggedTaskIdRef w) = None →
                 (handleDrop e w).1 = w) as Hidle.
  { intros e w Hw.
    destruct (handleDrop_cases e w) as [->|(? & ? & _ & Hd & _)]; [done|].
    by rewrite Hw in Hd. }
  split; [|apply Hidle].
  destruct (handleDrop_cases e1 v) as [E|(dragged & c & _ & _ & _ & E)];
    rewrite E; [|by rewrite Hidle].
  destruct (handleDrop_cases e2 v) as [->|(d & c & Hed & Hd & Hc & _)];
    [done|].
  exfalso. unfold handleDrop in E. rewrite Hed, Hd, Hc in E. simpl in E.
  apply (f_equal commits) in E. simpl in E.
  apply (f_equal length) in E. rewrite length_app in E. simpl in E. lia.
Qed.

Lemma drop_ends_drag_witness :
  commits (handleDrop (pointerAt 50 50) sampleView).1 = [].
Proof.
  destruct (drop_ends_drag (pointerAt 50 50) (pointerAt 60 60) sampleView)
    as (_ & Hidle).
  by rewrite Hidle.
Defined.

Lemma drop_keeps_graph_witness :
  length (tasks (handleDrop (pointerAt 700 300)
                   (setDragged (Some "A") origin sampleView)).1) = 2%nat
  ∧ ∃ u', tasks (handleDrop (pointerAt 700 300)
                   (setDragged (Some "A") origin sampleView)).1 !! 1%nat = Some u'
          ∧ u' = mkTask "B" 500 0 [].
Proof.
  destruct (drop_keeps_graph (pointerAt 700 300)
              (setDragged (Some "A") origin sampleView)) as (Hlen & Hnodes & _).
  split; [exact Hlen|].
  destruct (Hnodes 1%nat (mkTask "B" 500 0 []) eq_refl)
    as (u' & Hu' & _ & _ & _ & Hsame).
  exists u'. split; [exact Hu'|]. by apply Hsame.
Defined.

Lemma connector_pair_iff (v : View) (s t : string) :
  (∃ c, c ∈ newConnectors v ∧ sourceId c = s ∧ targetId c = t) ↔
  is_Some (flowContainerRef v) ∧ edge (tasks v) s t
  ∧ is_Some (findTask t (tasks v))
  ∧ is_Some (cardElement s v) ∧ is_Some (cardElement t v).
Proof.
  split.
  - intros (c & Hc & <- & <-).
    apply newConnectors_elem in Hc
      as (Hcanvas & src & tgt & sEl & tEl & Hsrc & Ht & Htgt & HsEl & HtEl & Hc).
    assert (sourceId c = task_id src) as -> by (by rewrite Hc).
    split_and!; [done | by exists src | by eexists..].
  - intros (Hcanvas & (src & Hsrc & <- & Ht) & [tgt Htgt] & [sEl HsEl] & [tEl HtEl]).
    exists (connectorInfo src tgt sEl tEl t). split_and!; [|done..].
    apply newConnectors_elem. split; [done|].
    by exists src, tgt, sEl, tEl.
Qed.

Lemma updateNodePosition_edge (k : string) (p : Point) (ts : list ProjectTask)
    (s t : string) :
  edge (updateNodePosition k p ts) s t ↔ edge ts s t.
Proof.
  unfold edge, updateNodePosition. split.
  - intros (u' & Hu' & Hs & Ht).
    apply list_elem_of_In, in_map_iff in Hu' as (u & <- & Hu).
    exists u. split; [by apply list_elem_of_In|]. by case_bool_decide.
  - intros (u & Hu & Hs & Ht).
    exists (if bool_decide (task_id u = k) then setPosition p u else u).
    split; [|by case_bool_decide].
    apply list_elem_of_In, in_map_iff. exists u.
    split; [done | by apply list_elem_of_In].
Qed.

Lemma updateNodePosition_find (k : string) (p : Point) (ts : list ProjectTask)
    (t : string) :
  findTask t (updateNodePosition k p ts) =
  (fun u => if bool_decide (task_id u = k) then setPosition p u else u)
    <$> findTask t ts.
Proof.
  unfold findTask, updateNodePosition.
  induction ts as [|u ts IH]; simpl; [done|].
  assert (task_id (if bool_decide (task_id u = k)
                   then setPosition p u else u) = task_id u) as ->.
  { by case_bool_decide. }
  case_bool_decide; [done | apply IH].
Qed.

(** X6.  Moving a card never adds or removes a connector: after any drop,
    the recompute has a connector for the pair [(s, t)] exactly when it had
    one before. *)
Theorem drop_keeps_connector_pairs (event : PointerEvent) (v : View)
    (s t : string) :
  (∃ c, c ∈ connectors (calculateConnectors (handleDrop event v).1)
        ∧ sourceId c = s ∧ targetId c = t)
  ↔ (∃ c, c ∈ connectors (calculateConnectors v)
          ∧ sourceId c = s ∧ targetId c = t).
Proof.
  simpl. rewrite !connector_pair_iff.
  destruct (handleDrop_cases event v) as [->|(dragged & c & _ & _ & _ & ->)];
    [done|].
  simpl. rewrite updateNodePosition_edge, updateNodePosition_find.
  rewrite fmap_is_Some. done.
Qed.

Lemma clamp_proper (p q extent card : Q) :
  p == q → clamp p extent card == clamp q extent card.
Proof. intros Hpq. unfold clamp. by rewrite Hpq. Qed.

Lemma clamp_inside (p extent card : Q) :
  0 <= p → p <= jsub extent card → clamp p extent card == p.
Proof.
  intros Hlo Hhi. unfold clamp. rewrite (Q.min_l _ _ Hhi). by apply Q.max_r.
Qed.

(** X7.  A drop uses the offset the drag start stored: for an editor on a
    mounted canvas, picking up the card [k] at [e1] and dropping it at [e2]
    commits, on each axis, [(e2 - origin) - ((e1 - origin) - old)] clamped,
    in the arithmetic of the code.  Whenever that expression comes out as
    the old coordinate, as it does when the card is dropped where it was
    picked up and the subtractions are exact (integer pixel measures), a
    card inside the range stays where it was; with fractional measures the
    rounding can move it. *)
Theorem drag_then_drop (e1 e2 : PointerEvent) (k : string) (v : View)
    (c : HTMLDivElement) :
  canEdit v = true → flowContainerRef v = Some c → k ≠ "" →
  let x0 := from_option posX 0 (findTask k (tasks v)) in
  let y0 := from_option posY 0 (findTask k (tasks v)) in
  let left := rect_left (getBoundingClientRect c) in
  let top := rect_top (getBoundingClientRect c) in
  let newX := jsub (jsub (clientX e2) left) (jsub (jsub (clientX e1) left) x0) in
  let newY := jsub (jsub (clientY e2) top) (jsub (jsub (clientY e1) top) y0) in
  let w := cardWidth (cardElement k v) in
  let h := cardHeight (cardElement k v) in
  ∃ p, commits (handleDrop e2 (handleDragCardStart e1 k v).1).1
       = commits v ++ [UpdateTaskPosition k p]
       ∧ px p = clamp newX (scrollWidth c) w
       ∧ py p = clamp newY (scrollHeight c) h
       ∧ (newX == x0 → in_range x0 0 (jsub (scrollWidth c) w) → px p == x0)
       ∧ (newY == y0 → in_range y0 0 (jsub (scrollHeight c) h) → py p == y0).
Proof.
  intros Hedit Hc Hk x0 y0 left top newX newY w h.
  assert ((handleDragCardStart e1 k v).1 =
          setDragged (Some k)
            {| px := jsub (jsub (clientX e1) left) x0;
               py := jsub (jsub (clientY e1) top) y0 |} v)
    as ->.
  { unfold handleDragCardStart. by rewrite Hedit, Hc. }
  set (v1 := setDragged _ _ v).
  assert (truthy (draggedTaskIdRef v1) = Some k) as Hdrag.
  { simpl. by destruct k. }
  exists (dropPosition e2 k c v1).
  split_and!; [|done|done| |].
  - unfold handleDrop.
    replace (canEdit v1) with true by (symmetry; exact Hedit).
    rewrite Hdrag. simpl. by rewrite Hc.
  - intros Hsame [Hlo Hhi]. simpl. fold left newX w.
    rewrite (clamp_proper _ x0) by done. by apply clamp_inside.
  - intros Hsame [Hlo Hhi]. simpl. fold top newY h.
    rewrite (clamp_proper _ y0) by done. by apply clamp_inside.
Qed.

Lemma drag_then_drop_witness :
  ∃ p, commits (handleDrop (pointerAt 520 40)
                  (handleDragCardStart (pointerAt 520 40) "B" sampleView).1).1
       = [UpdateTaskPosition "B" p]
       ∧ px p == 500.
Proof.
  destruct (drag_then_drop (pointerAt 520 40) (pointerAt 520 40) "B"
              sampleView (mkDiv 1200 800))
    as (p & Hcommit & _ & _ & Hx & _); [reflexivity | reflexivity | discriminate |].
  exists p. split; [exact Hcommit|].
  apply Hx; [vm_compute; reflexivity|]. split; vm_compute; discriminate.
Defined.

(** With fractional measures the offset does not cancel: a card at
    x = 0.1 picked up and dropped at the same pointer position, 300, is
    committed at 0.10000000000002274. *)
Example drag_then_drop_drifts :
  commits (handleDrop (pointerAt 300 40)
             (handleDragCardStart (pointerAt 300 40) "A" fractionalView).1).1
  = [UpdateTaskPosition "A" {| px := 879609302221 # 8796093022208; py := 0 |}].
Proof. vm_compute. reflexivity. Qed.

(** ** The refs of the cards *)

Lemma fold_refs_lookup (old : gmap string (option HTMLDivElement))
    (ts : list ProjectTask) (acc : gmap string (option HTMLDivElement))
    (k : string) :
  fold_left (fun refs task =>
               <[task_id task := default None (old !! task_id task)]> refs)
            ts acc !! k
  = if bool_decide (k ∈ task_id <$> ts)
    then Some (default None (old !! k)) else acc !! k.
Proof.
  revert acc. induction ts as [|t ts IH]; intros acc; [done|].
  cbn [fold_left]. rewrite fmap_cons.
  - rewrite IH. destruct (decide (k ∈ task_id <$> ts)) as [Hin|Hout].
    + rewrite !bool_decide_eq_true_2; [done | by right | done].
    + rewrite (bool_decide_eq_false_2 _ Hout).
      destruct (decide (k = task_id t)) as [->|Hne].
      * rewrite lookup_insert_eq, bool_decide_eq_true_2; [done | by left].
      * rewrite lookup_insert_ne by done.
        rewrite bool_decide_eq_false_2; [done|].
        by intros [?|?]%elem_of_cons.
Qed.

Lemma newRefs_lookup (v : View) (k : string) :
  newRefs v !! k
  = if bool_decide (k ∈ task_id <$> tasks v)
    then Some (default None (taskCardRefs v !! k)) else None.
Proof. unfold newRefs. by rewrite fold_refs_lookup, lookup_empty. Qed.

Lemma cardElement_refresh (v : View) (k : string) :
  cardElement k (refreshTaskCardRefs v)
  = if bool_decide (k ∈ task_id <$> tasks v) then cardElement k v else None.
Proof.
  unfold cardElement. simpl. rewrite newRefs_lookup.
  case_bool_decide; [|done]. by destruct (taskCardRefs v !! k) as [[el|]|].
Qed.

(** X9.  The effect that rebuilds the ref map gives a ref to every task and
    to nothing else; a task that had a ref keeps it, with the element it
    holds, a task without one gets an empty ref, and the refs of removed
    tasks are dropped.  Running the effect again changes nothing. *)
Theorem refresh_refs_follows_tasks (v : View) :
  (∀ k, is_Some (newRefs v !! k) ↔ k ∈ task_id <$> tasks v)
  ∧ (∀ k, k ∈ task_id <$> tasks v →
       newRefs v !! k = Some (default None (taskCardRefs v !! k))
       ∧ cardElement k (refreshTaskCardRefs v) = cardElement k v)
  ∧ (∀ k, k ∉ task_id <$> tasks v →
       cardElement k (refreshTaskCardRefs v) = None)
  ∧ newRefs (refreshTaskCardRefs v) = newRefs v.
Proof.
  split_and!.
  - intros k. rewrite newRefs_lookup.
    case_bool_decide; (split; [try done; by intros [? ?] | try done; by eexists]).
  - intros k Hk. rewrite cardElement_refresh, newRefs_lookup.
    by rewrite bool_decide_eq_true_2.
  - intros k Hk. rewrite cardElement_refresh.
    by rewrite bool_decide_eq_false_2.
  - apply map_eq. intros k. rewrite !newRefs_lookup. simpl.
    case_bool_decide as Hk; [|done]. rewrite newRefs_lookup.
    by rewrite bool_decide_eq_true_2.
Qed.

Lemma refresh_refs_follows_tasks_witness :
  cardElement "A" (refreshTaskCardRefs sampleView) = Some (mkDiv 380 280)
  ∧ cardElement "Z" (refreshTaskCardRefs sampleView) = None.
Proof.
  destruct (refresh_refs_follows_tasks sampleView) as (_ & Hkeep & Hdrop & _).
  split.
  - destruct (Hkeep "A") as [_ ->]; [by left | reflexivity].
  - apply Hdrop. vm_compute. intros Hin.
    apply elem_of_cons in Hin as [Hin|Hin]; [discriminate|].
    apply list_elem_of_singleton in Hin. discriminate.
Defined.

Lemma flat_map_ext_elem {A B} (f g : A → list B) (xs : list A) :
  (∀ x, x ∈ xs → f x = g x) → flat_map f xs = flat_map g xs.
Proof.
  induction xs as [|x xs IH]; intros Hfg; simpl; [done|].
  rewrite (Hfg x) by (by left). f_equal. apply IH.
  intros y Hy. apply Hfg. by right.
Qed.

(** The test on the size of the ref map only saves work: with no ref at
    all the loop would push nothing. *)
Lemma newConnectors_unguarded (v : View) :
  newConnectors v =
  match flowContainerRef v with
  | None => []
  | Some _ => flat_map (connectorsOf v) (tasks v)
  end.
Proof.
  unfold newConnectors. destruct (flowContainerRef v); [|done].
  case_bool_decide as Hsize; [|done].
  symmetry. apply flat_map_all_nil. intros src _. unfold connectorsOf.
  destruct (nextTaskIds src) as [[|? ?]|]; try done.
  destruct (cardElement (task_id src) v) as [el|] eqn:Hel; [|done].
  by destruct (cardElement_size _ _ _ Hel).
Qed.

(** X10.  Rebuilding the ref map never changes what the geometry pass
    produces: the connector list computed with the rebuilt map is the list
    computed with the old one. *)
Theorem refresh_refs_keeps_connectors (v : View) :
  connectors (calculateConnectors (refreshTaskCardRefs v))
  = connectors (calculateConnectors v).
Proof.
  simpl. rewrite !newConnectors_unguarded. simpl.
  destruct (flowContainerRef v); [|done].
  apply flat_map_ext_elem. intros src Hsrc. unfold connectorsOf.
  destruct (nextTaskIds src) as [[|t0 next]|]; try done.
  assert (task_id src ∈ task_id <$> tasks v) as Hid
    by (by apply list_elem_of_fmap_2).
  rewrite cardElement_refresh, (bool_decide_eq_true_2 _ Hid).
  destruct (cardElement (task_id src) v) as [sEl|]; [|done].
  apply flat_map_ext_elem. intros t _. unfold connectorTo. simpl.
  destruct (findTask t (tasks v)) as [tgt|] eqn:Htgt; [|done].
  destruct (findTask_Some _ _ _ Htgt) as [Hin <-].
  rewrite cardElement_refresh, bool_decide_eq_true_2; [done|].
  by apply list_elem_of_fmap_2.
Qed.

(** ** Connectors and edges *)

Lemma cardElement_refs (v w : View) (k : string) :
  taskCardRefs v = taskCardRefs w → cardElement k v = cardElement k w.
Proof. unfold cardElement. by intros ->. Qed.

(** X11.  A connect shows up in the next recompute: when an editor
    connects an existing node [a] to another existing node [b] on a mounted
    canvas and both cards are mounted, the connector list has a connector
    from [a] to [b]. *)
Theorem connect_draws_connector (a b : string) (e : PointerEvent) (v : View) :
  canEdit v = true → is_Some (flowContainerRef v) → a ≠ b →
  is_Some (findTask a (tasks v)) → is_Some (findTask b (tasks v)) →
  is_Some (cardElement a v) → is_Some (cardElement b v) →
  ∃ c, c ∈ connectors (calculateConnectors (connect a b e v))
       ∧ sourceId c = a ∧ targetId c = b.
Proof.
  intros Hedit Hc Hne [src Hsrc] Hb Ha' Hb'. simpl.
  destruct (connect_reaches_store a b e v src Hedit Hc Hne Hsrc)
    as (Ht & _ & _ & _ & Hcont & Hrefs).
  apply connector_pair_iff.
  rewrite Hcont, !(cardElement_refs _ v _ Hrefs), Ht.
  split_and!; [done | | | done | done].
  - apply edge_setNodeConnections. left.
    split_and!; [done | by eexists |].
    apply array_from_set_elem, elem_of_app. right. by left.
  - rewrite findTask_setNodeConnections, fmap_is_Some. done.
Qed.

Lemma connect_draws_connector_witness :
  ∃ c, c ∈ connectors (calculateConnectors
                         (connect "A" "B" (pointerAt 10 10) sampleView))
       ∧ sourceId c = "A" ∧ targetId c = "B".
Proof.
  apply (connect_draws_connector "A" "B" (pointerAt 10 10) sampleView);
    [reflexivity | by eexists | discriminate | by eexists..].
Defined.

Lemma connectorTo_length (v : View) (src : ProjectTask) (from : Point)
    (ts : list string) :
  (length (flat_map (connectorTo v src from) ts) ≤ length ts)%nat.
Proof.
  induction ts as [|t ts IH]; simpl; [lia|].
  rewrite length_app.
  assert (length (connectorTo v src from t) ≤ 1)%nat; [|lia].
  unfold connectorTo. destruct (findTask t (tasks v)); simpl; [|lia].
  destruct (cardElement t v); simpl; lia.
Qed.

Lemma connectorsOf_length (v : View) (src : ProjectTask) :
  (length (connectorsOf v src) ≤ length (list_or_empty (nextTaskIds src)))%nat.
Proof.
  unfold connectorsOf.
  destruct (nextTaskIds src) as [[|t0 next]|]; [simpl; lia | | simpl; lia].
  destruct (cardElement (task_id src) v) as [sEl|]; [|simpl; lia].
  apply connectorTo_length.
Qed.

(** X12.  The geometry pass never produces more connectors than the task
    list stores edges, whatever is mounted. *)
Theorem connectors_bounded_by_edges (v : View) :
  (length (connectors (calculateConnectors v)) ≤ edgeCount (tasks v))%nat.
Proof.
  simpl. rewrite newConnectors_unguarded.
  destruct (flowContainerRef v); simpl; [|lia].
  induction (tasks v) as [|src ts IH]; [simpl; lia|].
  unfold edgeCount in *. rewrite fmap_cons.
  change (flat_map (connectorsOf v) (src :: ts))
    with (connectorsOf v src ++ flat_map (connectorsOf v) ts).
  change (sum_list (?x :: ?l)) with (x + sum_list l)%nat.
  rewrite length_app. pose proof (connectorsOf_length v src). lia.
Qed.

(** ** Role and visibility *)

Lemma canEdit_setUserRole (r : string) (v : View) :
  canEdit (setUserRole r v) = true ↔ r = "owner" ∨ r = "admin" ∨ r = "editor".
Proof. unfold canEdit. rewrite !orb_true_iff, !role_is_true. simpl. tauto. Qed.

Lemma canManage_setUserRole (r : string) (v : View) :
  canManage (setUserRole r v) = true ↔ r = "owner" ∨ r = "admin".
Proof. unfold canManage. rewrite !orb_true_iff, !role_is_true. simpl. tauto. Qed.

Lemma role_or_viewer_eq (r : option string) (k : string) :
  k ≠ "viewer" → k ≠ "" → role_or_viewer r = k ↔ r = Some k.
Proof.
  intros Hv He. unfold role_or_viewer. destruct r as [[|c s]|]; simpl.
  - split; [done | by intros [= <-]].
  - split; [by intros -> | by intros [= ->]].
  - split; [done | done].
Qed.

Lemma loadUserRole_role (projectId : string) (user : option User)
    (members : string → string → Response (list MemberRole))
    (db : ProjectsTable) (v : View) (pub : bool) :
  projectId ≠ "" →
  ∃ r, getUserRole user members projectId = Resolved r
       ∧ (loadUserRole (Some projectId) (getUserRole user members)
            (getProject db) v pub).1 = setUserRole (role_or_viewer r) v.
Proof.
  intros Hid. unfold loadUserRole.
  assert (truthy (Some projectId) = Some projectId) as -> by (by destruct projectId).
  assert (∃ r, getUserRole user members projectId = Resolved r) as [r Hr].
  { unfold getUserRole. destruct user as [u|]; [|by eexists].
    destruct (single _); by eexists. }
  exists r. split; [done|]. rewrite Hr.
  by destruct (getProject db projectId).
Qed.

(** X13.  After the component has loaded the role for a project, the user
    may edit exactly when the membership query gave one row with the role
    owner, admin or editor, and may manage exactly when that role is owner
    or admin; without a signed-in user, or when the query fails or finds no
    row, the user is a viewer.  This holds whether or not the project itself
    could be fetched, and the graph is not touched. *)
Theorem loaded_role_permissions (projectId : string) (user : option User)
    (members : string → string → Response (list MemberRole))
    (db : ProjectsTable) (v : View) (pub : bool) :
  projectId ≠ "" →
  let v' := (loadUserRole (Some projectId) (getUserRole user members)
               (getProject db) v pub).1 in
  (canEdit v' = true ↔
   ∃ u row, user = Some u ∧ members projectId (user_id u) = Data [row]
            ∧ (role row = "owner" ∨ role row = "admin" ∨ role row = "editor"))
  ∧ (canManage v' = true ↔
     ∃ u row, user = Some u ∧ members projectId (user_id u) = Data [row]
              ∧ (role row = "owner" ∨ role row = "admin"))
  ∧ ((user = None ∨ ∃ u, user = Some u
                         ∧ ∀ row, members projectId (user_id u) ≠ Data [row]) →
     userRole v' = "viewer")
  ∧ tasks v' = tasks v ∧ commits v' = commits v.
Proof.
  intros Hid v'. subst v'.
  destruct (loadUserRole_role projectId user members db v pub Hid)
    as (r & Hr & ->).
  assert (∀ k, k ≠ "viewer" → k ≠ "" →
            role_or_viewer r = k ↔
            ∃ u row, user = Some u ∧ members projectId (user_id u) = Data [row]
                     ∧ role row = k) as Hrole.
  { intros k Hv He. rewrite (role_or_viewer_eq r k Hv He).
    unfold getUserRole in Hr. destruct user as [u|].
    - destruct (members projectId (user_id u)) as [[|row [|row' rows]]|err] eqn:E;
        simpl in Hr; injection Hr as <-;
        (split; [intros [= <-]; by exists u, row
                | intros (? & ? & ? & ? & ?); simplify_eq; congruence]).
    - injection Hr as <-. split; [done | by intros (? & ? & ? & _)]. }
  split_and!; [| | | done | done].
  - rewrite canEdit_setUserRole, !Hrole by done. split.
    + intros [(u & row & ? & ? & ?)|[(u & row & ? & ? & ?)|(u & row & ? & ? & ?)]];
        exists u, row; tauto.
    + intros (u & row & ? & ? & [?|[?|?]]);
        [left | right; left | right; right]; by exists u, row.
  - rewrite canManage_setUserRole, !Hrole by done. split.
    + intros [(u & row & ? & ? & ?)|(u & row & ? & ? & ?)];
        exists u, row; tauto.
    + intros (u & row & ? & ? & [?|?]); [left | right]; by exists u, row.
  - simpl. unfold getUserRole in Hr. intros [->|(u & -> & Hnone)].
    + by injection Hr as <-.
    + destruct (members projectId (user_id u)) as [[|row [|row' rows]]|err] eqn:E;
        simpl in Hr; injection Hr as <-; try done.
      by destruct (Hnone row).
Qed.

Lemma loaded_role_permissions_witness :
  canEdit (loadUserRole (Some "p1")
             (getUserRole (Some {| user_id := "u1" |})
                (fun _ _ => Data [ {| role := "editor" |} ]))
             (getProject (sampleDb None)) viewerView false).1 = true.
Proof.
  destruct (loaded_role_permissions "p1" (Some {| user_id := "u1" |})
              (fun _ _ => Data [ {| role := "editor" |} ])
              (sampleDb None) viewerView false) as (Hedit & _); [discriminate|].
  apply Hedit. exists {| user_id := "u1" |}, {| role := "editor" |}.
  split_and!; [done | done | by right; right].
Defined.

Lemma toggle_resolved (db : ProjectsTable) (id : string) (b : bool) :
  toggleProjectVisibility db id = Resolved b ↔
  ∃ row row', selectById db id = Data row
              ∧ updateById db id (onlyIsPublic (negb (is_public row))) = Data row'
              ∧ b = negb (is_public row).
Proof.
  unfold toggleProjectVisibility, getProject, updateProject.
  destruct (selectById db id) as [row|err]; simpl.
  - destruct (updateById db id (onlyIsPublic (negb (is_public row))))
      as [row'|err'] eqn:E; simpl; split.
    + intros [= <-]. by exists row, row'.
    + intros (? & ? & [= <-] & _ & ->). done.
    + done.
    + intros (? & ? & [= <-] & H & _). by rewrite E in H.
  - split; [done | by intros (? & ? & ? & _)].
Qed.

(** X14.  [toggleProjectVisibility] resolves with the negation of the
    stored [is_public] flag, and only when the project could be read and
    the update that sets just that flag succeeded; what the update answers
    is not looked at.  It rejects with the message of whichever request
    failed. *)
Theorem toggle_negates_stored_flag (db : ProjectsTable) (id : string) :
  (∀ b, toggleProjectVisibility db id = Resolved b ↔
        ∃ row row', selectById db id = Data row
                    ∧ updateById db id (onlyIsPublic (negb (is_public row)))
                      = Data row'
                    ∧ b = negb (is_public row))
  ∧ (∀ m, toggleProjectVisibility db id = Rejected m ↔
          getProject db id = Rejected m
          ∨ ∃ row, selectById db id = Data row
                   ∧ updateProject db id (onlyIsPublic (negb (is_public row)))
                     = Rejected m).
Proof.
  split; [apply toggle_resolved|].
  unfold toggleProjectVisibility, getProject, updateProject.
  destruct (selectById db id) as [row|err]; simpl.
  - destruct (updateById db id (onlyIsPublic (negb (is_public row))))
      as [row'|err'] eqn:E; simpl.
    + intros m. split; [done|]. intros [?|(? & [= <-] & H)]; [done|].
      by rewrite E in H.
    + intros m. split.
      * intros [= <-]. right. exists row. by rewrite E.
      * intros [?|(? & [= <-] & H)]; [done|]. rewrite E in H.
        by injection H as <-.
  - intros m. split.
    + intros [= <-]. by left.
    + intros [[= <-]|(? & ? & _)]; done.
Qed.

Lemma toggle_negates_stored_flag_witness :
  toggleProjectVisibility (sampleDb None) "p1" = Resolved true.
Proof.
  destruct (toggle_negates_stored_flag (sampleDb None) "p1") as [Hres _].
  apply Hres. by exists (sampleRow None), (sampleRow None).
Defined.

(** X15.  The visibility switch is for managers of a stored project: for
    anyone else, or with no current project, the handler leaves the state
    and shows nothing.  When it does change the state, the new value is the
    negation of the flag stored for the project, not of the state shown;
    on a failure the state stays and one message is shown. *)
Theorem toggle_handler_gated (db : ProjectsTable)
    (currentProjectId : option string) (v : View) (pub : bool) :
  let r := handleToggleVisibility db currentProjectId v pub in
  ((canManage v = false ∨ truthy currentProjectId = None) → r = (pub, []))
  ∧ (r.1 = pub
     ∨ ∃ projectId row, canManage v = true
                        ∧ truthy currentProjectId = Some projectId
                        ∧ selectById db projectId = Data row
                        ∧ r.1 = negb (is_public row))
  ∧ (length r.2 ≤ 1)%nat.
Proof.
  intros r. subst r. unfold handleToggleVisibility.
  destruct (canManage v); simpl.
  2:{ split_and!; [done | by left | lia]. }
  destruct (truthy currentProjectId) as [projectId|]; simpl.
  2:{ split_and!; [done | by left | lia]. }
  destruct (toggleProjectVisibility db projectId) as [b|m] eqn:E; simpl.
  - split_and!; [by intros [?|?] | | lia].
    right. apply toggle_resolved in E as (row & row' & Hrow & _ & ->).
    by exists projectId, row.
  - split_and!; [by intros [?|?] | by left | lia].
Qed.

Lemma toggle_handler_gated_witness :
  handleToggleVisibility (sampleDb None) (Some "p1") viewerView false = (false, []).
Proof.
  destruct (toggle_handler_gated (sampleDb None) (Some "p1") viewerView false)
    as (Hgate & _).
  apply Hgate. by left.
Defined.

(** ** Accepting an invitation: the database function *)

Lemma invitation_matches_true (s : Session) (db : Database) (token : string)
    (i : InvitationRow) :
  invitation_matches token (session_email s db) (now s) i = true ↔
  acceptable s db token i.
Proof.
  unfold invitation_matches, acceptable.
  rewrite !andb_true_iff, !bool_decide_eq_true. tauto.
Qed.

Lemma session_email_uid (s : Session) (db : Database) (e : string) :
  session_email s db = Some e → is_Some (auth_uid s).
Proof. unfold session_email. destruct (auth_uid s); [by eexists | done]. Qed.

Lemma accept_cases (s : Session) (token : string) (db : Database) :
  (accept_project_invitation s token db = (db, accept_failed)
   ∧ ∀ i, i ∈ db_invitations db → ¬ acceptable s db token i)
  ∨ ∃ uid i,
      auth_uid s = Some uid
      ∧ find (invitation_matches token (session_email s db) (now s))
             (db_invitations db) = Some i
      ∧ i ∈ db_invitations db ∧ acceptable s db token i
      ∧ accept_project_invitation s token db =
        ({| auth_users := auth_users db;
            db_members := upsert_member s uid i (db_members db);
            db_invitations := mark_accepted (now s) (pi_id i) (db_invitations db);
            db_activity_log := db_activity_log db ++ [member_joined s uid i] |},
         accept_ok (pi_project_id i)).
Proof.
  unfold accept_project_invitation.
  destruct (auth_uid s) as [uid|] eqn:Huid.
  - destruct (find _ (db_invitations db)) as [i|] eqn:Hfind.
    + right. exists uid, i. apply find_some in Hfind as Hi.
      destruct Hi as [Hin Hm]. apply list_elem_of_In in Hin.
      apply invitation_matches_true in Hm. done.
    + left. split; [done|]. intros i Hi Hacc.
      apply list_elem_of_In in Hi.
      pose proof (find_none _ _ Hfind i Hi) as Hm.
      apply invitation_matches_true in Hacc. by rewrite Hacc in Hm.
  - left. split; [done|]. intros i _ (_ & He & _).
    symmetry in He. apply session_email_uid in He as [? ?]. congruence.
Qed.

(** X16.  [accept_project_invitation] answers success exactly when the
    table holds an invitation with the given token, addressed to the email
    of the signed-in user, not expired and not yet accepted.  Otherwise it
    answers "Invalid or expired invitation" and leaves every table as it
    was. *)
Theorem accept_succeeds_iff_acceptable (s : Session) (token : string)
    (db : Database) :
  let r := accept_project_invitation s token db in
  (js_get "success" r.2 = Some (JBool true) ↔
   ∃ i, i ∈ db_invitations db ∧ acceptable s db token i)
  ∧ ((∀ i, i ∈ db_invitations db → ¬ acceptable s db token i) →
     r = (db, accept_failed))
  ∧ (r.2 = accept_failed ∨ ∃ i, i ∈ db_invitations db ∧ acceptable s db token i
                                ∧ r.2 = accept_ok (pi_project_id i)).
Proof.
  intros r. subst r.
  destruct (accept_cases s token db)
    as [[-> Hnone]|(uid & i & _ & _ & Hin & Hacc & ->)]; simpl.
  - split_and!; [|done | by left].
    split; [done|]. intros (i & Hi & Hacc). by destruct (Hnone i Hi).
  - split_and!.
    + split; [by exists i | done].
    + intros Hnone. by destruct (Hnone i Hin).
    + right. by exists i.
Qed.

Lemma accept_succeeds_iff_acceptable_witness :
  accept_project_invitation sampleSession "wrong" sampleDatabase
  = (sampleDatabase, accept_failed).
Proof.
  destruct (accept_succeeds_iff_acceptable sampleSession "wrong" sampleDatabase)
    as (_ & Hfail & _).
  apply Hfail. intros i Hi (Htok & _).
  apply list_elem_of_singleton in Hi as ->. discriminate Htok.
Defined.

Lemma upsert_member_elem (s : Session) (uid : string) (i : InvitationRow)
    (ms : list MemberRow) (m : MemberRow) :
  m ∈ upsert_member s uid i ms →
  (same_member (pi_project_id i) uid m = true ∧ pm_role m = pi_role i)
  ∨ (same_member (pi_project_id i) uid m = false ∧ m ∈ ms).
Proof.
  unfold upsert_member.
  destruct (existsb (same_member (pi_project_id i) uid) ms) eqn:Hex.
  - intros (m0 & <- & Hm0)%list_elem_of_In%in_map_iff.
    apply list_elem_of_In in Hm0.
    destruct (same_member (pi_project_id i) uid m0) eqn:Hsame.
    + left. split; [exact Hsame | done].
    + right. done.
  - intros [Hm| ->%list_elem_of_singleton]%elem_of_app.
    + right. split; [|done]. apply list_elem_of_In in Hm.
      destruct (same_member (pi_project_id i) uid m) eqn:Hsame; [|done].
      assert (existsb (same_member (pi_project_id i) uid) ms = true)
        by (apply existsb_exists; by exists m).
      congruence.
    + left. unfold same_member. simpl. by rewrite !bool_decide_eq_true_2.
Qed.

Lemma upsert_member_has (s : Session) (uid : string) (i : InvitationRow)
    (ms : list MemberRow) :
  ∃ m, m ∈ upsert_member s uid i ms
       ∧ same_member (pi_project_id i) uid m = true.
Proof.
  unfold upsert_member.
  destruct (existsb (same_member (pi_project_id i) uid) ms) eqn:Hex.
  - apply existsb_exists in Hex as (m & Hm & Hsame).
    exists (setRole (pi_role i) m). split; [|done].
    apply list_elem_of_In, in_map_iff. exists m. by rewrite Hsame.
  - eexists. split; [apply elem_of_app; right; by left|].
    unfold same_member. simpl. by rewrite !bool_decide_eq_true_2.
Qed.

Lemma upsert_member_others (s : Session) (uid : string) (i : InvitationRow)
    (ms : list MemberRow) (m : MemberRow) :
  same_member (pi_project_id i) uid m = false →
  m ∈ upsert_member s uid i ms ↔ m ∈ ms.
Proof.
  intros Hother. split.
  - intros [[Hsame _]|[_ ?]]%upsert_member_elem; [congruence | done].
  - intros Hm. unfold upsert_member.
    destruct (existsb (same_member (pi_project_id i) uid) ms).
    + apply list_elem_of_In, in_map_iff. exists m. rewrite Hother.
      split; [done | by apply list_elem_of_In].
    + apply elem_of_app. by left.
Qed.

Lemma upsert_member_keys (s : Session) (uid : string) (i : InvitationRow)
    (ms : list MemberRow) :
  NoDup (member_key <$> ms) → NoDup (member_key <$> upsert_member s uid i ms).
Proof.
  intros Hnd. unfold upsert_member.
  destruct (existsb (same_member (pi_project_id i) uid) ms) eqn:Hex.
  - replace (member_key <$> map _ ms) with (member_key <$> ms); [done|].
    change (map ?f ms) with (f <$> ms). rewrite <- list_fmap_compose.
    apply list_fmap_ext. intros _ m _. simpl. by destruct (same_member _ _ m).
  - rewrite fmap_app. apply NoDup_app. split_and!; [done | | apply NoDup_singleton].
    intros k (m & -> & Hm)%list_elem_of_fmap Hk.
    apply list_elem_of_singleton in Hk.
    assert (existsb (same_member (pi_project_id i) uid) ms = true); [|congruence].
    apply existsb_exists. exists m. split; [by apply list_elem_of_In|].
    unfold member_key in Hk. simpl in Hk. injection Hk as Hp Hu.
    unfold same_member. by rewrite !bool_decide_eq_true_2.
Qed.

Lemma same_member_true (p u : string) (m : MemberRow) :
  same_member p u m = true ↔ pm_project_id m = p ∧ pm_user_id m = u.
Proof. unfold same_member. by rewrite andb_true_iff, !bool_decide_eq_true. Qed.

(** X17.  After a successful acceptance the signed-in user is a member of
    the invitation's project, and every membership row of that user on that
    project carries the invitation's role: a row that was there keeps
    everything but its role, which is overwritten whatever it was.  No other
    membership row is added, removed or changed, and the pairs of project
    and user stay unique when they were. *)
Theorem accept_grants_invited_role (s : Session) (token : string)
    (db : Database) (uid : string) (i : InvitationRow) :
  auth_uid s = Some uid →
  find (invitation_matches token (session_email s db) (now s))
       (db_invitations db) = Some i →
  let members' := db_members (accept_project_invitation s token db).1 in
  (∃ m, m ∈ members' ∧ pm_project_id m = pi_project_id i ∧ pm_user_id m = uid)
  ∧ (∀ m, m ∈ members' → pm_project_id m = pi_project_id i →
          pm_user_id m = uid → pm_role m = pi_role i)
  ∧ (∀ m, ¬ (pm_project_id m = pi_project_id i ∧ pm_user_id m = uid) →
          m ∈ members' ↔ m ∈ db_members db)
  ∧ (NoDup (member_key <$> db_members db) → NoDup (member_key <$> members')).
Proof.
  intros Huid Hfind members'. subst members'.
  unfold accept_project_invitation. rewrite Huid, Hfind. simpl. split_and!.
  - destruct (upsert_member_has s uid i (db_members db)) as (m & Hm & Hsame).
    exists m. by apply same_member_true in Hsame as [? ?].
  - intros m Hm Hp Hu.
    apply upsert_member_elem in Hm as [[_ ?]|[Hother _]]; [done|].
    assert (same_member (pi_project_id i) uid m = true)
      by (by apply same_member_true).
    congruence.
  - intros m Hother. apply upsert_member_others.
    destruct (same_member (pi_project_id i) uid m) eqn:Hsame; [|done].
    by apply same_member_true in Hsame.
  - apply upsert_member_keys.
Qed.

Lemma accept_grants_invited_role_witness :
  db_members (accept_project_invitation sampleSession "tok" sampleDatabase).1
  = [ {| pm_id := "m1"; pm_project_id := "p1"; pm_user_id := "u1";
         pm_role := "viewer"; pm_invited_by := None;
         pm_joined_at := 10; pm_created_at := 10 |} ]
  ∧ ∀ m, m ∈ db_members
               (accept_project_invitation sampleSession "tok" sampleDatabase).1 →
         pm_project_id m = "p1" → pm_user_id m = "u1" → pm_role m = "viewer".
Proof.
  split; [reflexivity|].
  destruct (accept_grants_invited_role sampleSession "tok" sampleDatabase
              "u1" sampleInvitation) as (_ & Hrole & _);
    [reflexivity | reflexivity | exact Hrole].
Defined.

Lemma NoDup_fmap_eq {A B} (f : A → B) (l : list A) (x y : A) :
  NoDup (f <$> l) → x ∈ l → y ∈ l → f x = f y → x = y.
Proof.
  induction l as [|a l IH]; intros Hnd Hx Hy Hxy.
  - by apply elem_of_nil in Hx.
  - rewrite fmap_cons in Hnd. apply NoDup_cons in Hnd as [Ha Hnd].
    apply elem_of_cons in Hx as [->|Hx]; apply elem_of_cons in Hy as [->|Hy].
    + done.
    + destruct Ha. rewrite Hxy. by apply list_elem_of_fmap_2.
    + destruct Ha. rewrite <- Hxy. by apply list_elem_of_fmap_2.
    + by apply IH.
Qed.

(** X18.  An invitation can be accepted once: tokens being unique, after a
    successful acceptance any later call with the same token, by anyone at
    any time, answers "Invalid or expired invitation" and changes nothing. *)
Theorem accept_only_once (s s' : Session) (token : string) (db : Database) :
  NoDup (pi_token <$> db_invitations db) →
  js_get "success" (accept_project_invitation s token db).2 = Some (JBool true) →
  let db1 := (accept_project_invitation s token db).1 in
  accept_project_invitation s' token db1 = (db1, accept_failed).
Proof.
  intros Hnd Hok db1. subst db1.
  destruct (accept_cases s token db)
    as [[E _]|(uid & i & _ & _ & Hin & (Htok & _) & E)];
    rewrite E in Hok |- *; [done|]. clear E Hok. cbn [fst].
  set (db1 := {| auth_users := _ |}).
  destruct (accept_cases s' token db1)
    as [[-> _]|(uid' & j & _ & _ & Hj & (Hjtok & _ & _ & Hopen) & _)]; [done|].
  exfalso. simpl in Hj. unfold mark_accepted in Hj.
  apply list_elem_of_In, in_map_iff in Hj as (j0 & <- & Hj0).
  apply list_elem_of_In in Hj0.
  assert (pi_token j0 = token) as Hj0tok by (by case_bool_decide).
  assert (j0 = i) as ->.
  { apply (NoDup_fmap_eq pi_token (db_invitations db)); congruence. }
  by rewrite bool_decide_eq_true_2 in Hopen.
Qed.

Lemma accept_only_once_witness :
  accept_project_invitation sampleSession "tok"
    (accept_project_invitation sampleSession "tok" sampleDatabase).1
  = ((accept_project_invitation sampleSession "tok" sampleDatabase).1,
     accept_failed).
Proof.
  apply (accept_only_once sampleSession sampleSession "tok" sampleDatabase);
    [|reflexivity].
  apply NoDup_singleton.
Defined.

(** X19.  Accepting never deletes anything: users are untouched, every
    invitation row stays, changed at most in its [accepted_at], the members
    grow by at most one row, and on success exactly one [member_joined]
    entry, for the signed-in user, is appended to the activity log. *)
Theorem accept_frame (s : Session) (token : string) (db : Database) :
  let r := accept_project_invitation s token db in
  auth_users r.1 = auth_users db
  ∧ Forall2 (fun i i' => i' = i ∨ i' = setAccepted (now s) i)
            (db_invitations db) (db_invitations r.1)
  ∧ (length (db_members db) ≤ length (db_members r.1) ≤
     S (length (db_members db)))%nat
  ∧ (db_activity_log r.1 = db_activity_log db
     ∨ ∃ uid entry, auth_uid s = Some uid
                    ∧ db_activity_log r.1 = db_activity_log db ++ [entry]
                    ∧ al_action entry = "member_joined"
                    ∧ al_user_id entry = Some uid).
Proof.
  intros r. subst r.
  destruct (accept_cases s token db)
    as [[-> _]|(uid & i & Huid & _ & _ & _ & ->)]; simpl.
  - split_and!; [done | | lia | lia | by left].
    apply Forall2_same_length_lookup. split; [done|].
    intros k i i' Hi Hi'. left. congruence.
  - assert (length (db_members db)
              ≤ length (upsert_member s uid i (db_members db))
              ≤ S (length (db_members db)))%nat as [Hlo Hhi].
    { unfold upsert_member. destruct (existsb _ (db_members db)).
      - rewrite length_map. lia.
      - rewrite length_app. simpl. lia. }
    split_and!; [done | | done | done |].
    + unfold mark_accepted. induction (db_invitations db) as [|i0 l IH];
        simpl; constructor; [|done].
      case_bool_decide; [by right | by left].
    + right. by exists uid, (member_joined s uid i).
Qed.

(** ** Accepting an invitation: the client *)

(** X20.  The accept dialog never reports success for an answer of
    [accept_project_invitation]: the function names the project
    [project_id], the dialog reads [projectId].  Whatever the database did,
    the dialog keeps [success] as it was, opens no project and, once the
    token is not blank, shows an error: the function's own message when it
    refused, and "招待の受諾に失敗しました" when it accepted. *)
Theorem accept_dialog_never_succeeds (trim : string → string) (s : Session)
    (db : Database) (m : AcceptModal) :
  let m' := handleAccept trim (acceptWith s db) m in
  am_success m' = am_success m ∧ am_opened m' = am_opened m
  ∧ (trim (am_token m) ≠ "" →
     isAccepting m' = false
     ∧ am_error m' =
       Some (JString
               (if js_truthy (js_get "success"
                                (accept_project_invitation s (am_token m) db).2)
                then "招待の受諾に失敗しました"
                else "Invalid or expired invitation"))).
Proof.
  intros m'. subst m'. unfold handleAccept, acceptWith.
  case_bool_decide as Hblank; [done|]. simpl.
  destruct (accept_cases s (am_token m) db)
    as [[-> _]|(uid & i & _ & _ & _ & _ & ->)]; simpl; done.
Qed.

Lemma accept_dialog_never_succeeds_witness :
  js_get "success" (accept_project_invitation sampleSession "tok" sampleDatabase).2
  = Some (JBool true)
  ∧ am_success (handleAccept (fun t => t) (acceptWith sampleSession sampleDatabase)
                  sampleModal) = false
  ∧ am_error (handleAccept (fun t => t) (acceptWith sampleSession sampleDatabase)
                sampleModal) = Some (JString "招待の受諾に失敗しました").
Proof.
  destruct (accept_dialog_never_succeeds (fun t => t) sampleSession
              sampleDatabase sampleModal) as (Hs & _ & Herr).
  destruct Herr as [_ Herr]; [discriminate|].
  split_and!; [reflexivity | exact Hs | exact Herr].
Defined.

(** ** Sending an invitation and creating a project *)

(** X21.  [inviteToProject] reports "already invited" exactly when a user
    is signed in and the insert failed with the unique-violation code
    23505; no other failure can produce that message.  When it resolves,
    the row was inserted with the signed-in user as [invited_by] and the
    result is that row. *)
Theorem invite_already_invited_iff (user : option User)
    (insert : InvitationInsert → Response InvitationRow)
    (projectId email r : string) :
  let sent u := {| ii_project_id := projectId; ii_email := email;
                   ii_role := r; ii_invited_by := user_id u |} in
  (inviteToProject user insert projectId email r = Rejected alreadyInvited ↔
   ∃ u e, user = Some u ∧ insert (sent u) = Error e ∧ code e = "23505")
  ∧ (∀ d, inviteToProject user insert projectId email r = Resolved d ↔
          ∃ u row, user = Some u ∧ insert (sent u) = Data row
                   ∧ d = toProjectInvitation row).
Proof.
  intros sent. subst sent. unfold inviteToProject.
  destruct user as [u|].
  2:{ split; [|intros d]; (split; [done | by intros (? & ? & ? & _)]). }
  destruct (insert _) as [row|e] eqn:E.
  - split; [|intros d]; split.
    + done.
    + intros (? & ? & [= <-] & H & _). by rewrite E in H.
    + intros [= <-]. by exists u, row.
    + intros (? & ? & [= <-] & H & ->). rewrite E in H. by injection H as <-.
  - case_bool_decide as Hcode; (split; [|intros d]; split); try done.
    + intros _. by exists u, e.
    + intros (? & ? & [= <-] & H & _). by rewrite E in H.
    + intros (? & ? & [= <-] & H & Hc). rewrite E in H. by injection H as <-.
    + intros (? & ? & [= <-] & H & _). by rewrite E in H.
Qed.

Lemma invite_already_invited_iff_witness :
  inviteToProject (Some {| user_id := "u1" |})
    (fun _ => Error {| message := "duplicate key"; code := "23505" |})
    "p1" "ann@example.com" "viewer" = Rejected alreadyInvited.
Proof.
  destruct (invite_already_invited_iff (Some {| user_id := "u1" |})
              (fun _ => Error {| message := "duplicate key"; code := "23505" |})
              "p1" "ann@example.com" "viewer") as [Hdup _].
  apply Hdup. by eexists _, _.
Defined.

(** X22.  [createProject] sends the signed-in user as both [owner_id] and
    [user_id], and never sends a null task array: the given tasks, or the
    empty array when the argument is left out.  The record it resolves
    with always carries the role owner. *)
Theorem createProject_inserts_owner (user : option User) (db : ProjectsTable)
    (title goal targetDate : string) (tasks : option (list ProjectTask))
    (ganttData : option (list GanttItem)) (d : ProjectData) :
  createProject user db title goal targetDate tasks ganttData = Resolved d →
  ∃ u ins row,
    user = Some u ∧ insertRow db ins = Data row
    ∧ ins_owner_id ins = user_id u ∧ ins_user_id ins = user_id u
    ∧ ins_tasks_data ins = default [] tasks
    ∧ (tasks = None → ins_tasks_data ins = [])
    ∧ ins_title ins = title ∧ ins_goal ins = goal
    ∧ ins_target_date ins = targetDate ∧ ins_gantt_data ins = ganttData
    ∧ pd_userRole d = Some "owner" ∧ ownerId d = owner_id row.
Proof.
  unfold createProject. destruct user as [u|]; [|done].
  destruct (insertRow db _) as [row|e] eqn:E; [|done].
  intros [= <-]. eexists u, _, row.
  split_and!; [done | exact E | try done ..]. by intros ->.
Qed.

Lemma createProject_inserts_owner_witness :
  ∃ d, createProject (Some {| user_id := "u1" |}) (sampleDb None)
         "Launch" "Ship" "2025-12-31" None None = Resolved d
       ∧ pd_userRole d = Some "owner".
Proof.
  eexists. split; [reflexivity|].
  destruct (createProject_inserts_owner (Some {| user_id := "u1" |})
              (sampleDb None) "Launch" "Ship" "2025-12-31" None None _ eq_refl)
    as (u & ins & row & H).
  destruct H as (_ & _ & _ & _ & _ & _ & _ & _ & _ & _ & Hrole & _).
  exact Hrole.
Defined.

(** ** What no sequence of gestures does *)

Lemma handle_tasks (g : Gesture) (v : View) : tasks_step v g (tasks (handle g v)).
Proof.
  destruct g as [e k|e|e|k e|b|s t|e|]; simpl.
  - unfold handleDragCardStart. destruct (negb (canEdit v)); (simpl; apply step_same).
  - unfold handleDragOver. destruct (negb (canEdit v)); (simpl; apply step_same).
  - destruct (handleDrop_cases e v) as [->|(k & c & _ & _ & _ & ->)];
      [(simpl; apply step_same) | apply step_move].
  - unfold handleStartConnection. destruct (negb (canEdit v)); [(simpl; apply step_same)|].
    destruct (flowContainerRef v); (simpl; apply step_same).
  - unfold handleEndConnection. destruct (negb (canEdit v)); [(simpl; apply step_same)|].
    destruct (connectingState v) as [cs|]; [|(simpl; apply step_same)].
    case_bool_decide as Hself; [(simpl; apply step_same)|].
    destruct (findTask (fromId cs) (tasks v)) as [src|] eqn:Hsrc;
      [|(simpl; apply step_same)].
    destruct (findTask_Some _ _ _ Hsrc) as [Hin Hid]. simpl.
    apply step_connect; [done | done | congruence].
  - unfold handleDeleteConnection. destruct (negb (canEdit v)); [(simpl; apply step_same)|].
    destruct (findTask s (tasks v)) as [src|] eqn:Hsrc; [|(simpl; apply step_same)].
    destruct (findTask_Some _ _ _ Hsrc) as [Hin Hid]. simpl.
    by apply step_disconnect.
  - unfold handleMouseMove.
    destruct (connectingState v), (flowContainerRef v); (simpl; apply step_same).
  - unfold handleMouseUp. destruct (connectingState v); (simpl; apply step_same).
Qed.

Lemma setNodeConnections_ids (a : string) (next : list string)
    (ts : list ProjectTask) :
  task_id <$> setNodeConnections a next ts = task_id <$> ts.
Proof.
  unfold setNodeConnections. change (map ?f ts) with (f <$> ts).
  rewrite <- list_fmap_compose. apply list_fmap_ext. intros _ t _. simpl.
  by case_bool_decide.
Qed.

Lemma updateNodePosition_ids (k : string) (p : Point) (ts : list ProjectTask) :
  task_id <$> updateNodePosition k p ts = task_id <$> ts.
Proof.
  unfold updateNodePosition. change (map ?f ts) with (f <$> ts).
  rewrite <- list_fmap_compose. apply list_fmap_ext. intros _ t _. simpl.
  by case_bool_decide.
Qed.

Lemma handle_ids (g : Gesture) (v : View) :
  task_id <$> tasks (handle g v) = task_id <$> tasks v.
Proof.
  destruct (handle_tasks g v);
    [done | apply updateNodePosition_ids | apply setNodeConnections_ids..].
Qed.

(** X23.  No sequence of gestures adds, removes, renames or reorders a
    node: the list of node ids after it is the list before it. *)
Theorem gestures_keep_nodes (gs : list Gesture) (v : View) :
  task_id <$> tasks (handleAll gs v) = task_id <$> tasks v.
Proof.
  unfold handleAll. revert v. induction gs as [|g gs IH]; intros v; [done|].
  simpl. by rewrite IH, handle_ids.
Qed.

Lemma handle_role (g : Gesture) (v : View) : userRole (handle g v) = userRole v.
Proof.
  destruct g as [e k|e|e|k e|b|s t|e|]; simpl.
  - unfold handleDragCardStart. by destruct (negb (canEdit v)).
  - unfold handleDragOver. by destruct (negb (canEdit v)).
  - by destruct (handleDrop_cases e v) as [->|(k & c & _ & _ & _ & ->)].
  - unfold handleStartConnection. destruct (negb (canEdit v)); [done|].
    by destruct (flowContainerRef v).
  - apply endConnection_frame.
  - unfold handleDeleteConnection. destruct (negb (canEdit v)); [done|].
    by destruct (findTask s (tasks v)).
  - unfold handleMouseMove.
    by destruct (connectingState v), (flowContainerRef v).
  - unfold handleMouseUp. by destruct (connectingState v).
Qed.

Lemma handle_read_only (g : Gesture) (v : View) :
  canEdit v = false →
  tasks (handle g v) = tasks v ∧ commits (handle g v) = commits v.
Proof.
  intros Hro. destruct g as [e k|e|e|k e|b|s t|e|]; simpl.
  - unfold handleDragCardStart. by rewrite Hro.
  - unfold handleDragOver. by rewrite Hro.
  - unfold handleDrop. by rewrite Hro.
  - unfold handleStartConnection. by rewrite Hro.
  - unfold handleEndConnection. by rewrite Hro.
  - unfold handleDeleteConnection. by rewrite Hro.
  - unfold handleMouseMove.
    by destruct (connectingState v), (flowContainerRef v).
  - unfold handleMouseUp. by destruct (connectingState v).
Qed.

(** X24.  A user who may not edit cannot change the graph by any sequence
    of gestures: the task list stays as it is, nothing is committed to the
    store, and the role itself is never changed by a gesture. *)
Theorem viewer_cannot_change_graph (gs : list Gesture) (v : View) :
  userRole (handleAll gs v) = userRole v
  ∧ (canEdit v = false →
     tasks (handleAll gs v) = tasks v ∧ commits (handleAll gs v) = commits v).
Proof.
  unfold handleAll. revert v. induction gs as [|g gs IH]; intros v; [done|].
  simpl. destruct (IH (handle g v)) as [Hrole Hro]. split.
  - by rewrite Hrole, handle_role.
  - intros Hv. destruct (handle_read_only g v Hv) as [Ht Hc].
    destruct Hro as [Ht' Hc'].
    { rewrite <- Hv. apply canEdit_role, handle_role. }
    split; congruence.
Qed.

Lemma viewer_cannot_change_graph_witness :
  tasks (handleAll [StartConnection "B" (pointerAt 10 10); EndConnection "A";
                    DeleteConnection "A" "B";
                    DragCardStart (pointerAt 5 5) "A"; Drop (pointerAt 90 90)]
           viewerView) = tasks viewerView.
Proof.
  destruct (viewer_cannot_change_graph
              [StartConnection "B" (pointerAt 10 10); EndConnection "A";
               DeleteConnection "A" "B";
               DragCardStart (pointerAt 5 5) "A"; Drop (pointerAt 90 90)]
              viewerView) as [_ Hro].
  by destruct Hro as [Ht _].
Defined.

Lemma setNodeConnections_unique (a : string) (next : list string)
    (ts : list ProjectTask) :
  NoDup next → lists_unique ts → lists_unique (setNodeConnections a next ts).
Proof.
  intros Hnext Hts. unfold lists_unique, setNodeConnections.
  apply Forall_forall. intros t' Ht'.
  apply list_elem_of_In, in_map_iff in Ht' as (t & <- & Ht).
  apply list_elem_of_In in Ht. case_bool_decide; [done|].
  by apply (proj1 (Forall_forall _ _) Hts).
Qed.

Lemma handle_unique (g : Gesture) (v : View) :
  lists_unique (tasks v) → lists_unique (tasks (handle g v)).
Proof.
  intros Hu. destruct (handle_tasks g v) as [|k p|src b _ Hsrc _|src t Hsrc].
  - done.
  - unfold lists_unique, updateNodePosition. apply Forall_forall.
    intros t' Ht'. apply list_elem_of_In, in_map_iff in Ht' as (t & <- & Ht).
    apply list_elem_of_In in Ht.
    pose proof (proj1 (Forall_forall _ _) Hu t Ht). by case_bool_decide.
  - apply setNodeConnections_unique; [apply array_from_set_NoDup | done].
  - apply setNodeConnections_unique; [|done].
    apply NoDup_filter. by apply (proj1 (Forall_forall _ _) Hu).
Qed.

Lemma handle_no_self_loop (g : Gesture) (v : View) :
  (∀ s, ¬ edge (tasks v) s s) → ∀ s, ¬ edge (tasks (handle g v)) s s.
Proof.
  intros Hnone.
  destruct (handle_tasks g v) as [|k p|src b _ Hsrc Hne|src t Hsrc].
  - done.
  - intros s. rewrite updateNodePosition_edge. apply Hnone.
  - intros s [(-> & _ & Hin)|[_ He]]%edge_setNodeConnections;
      [|by apply (Hnone s)].
    apply array_from_set_elem, elem_of_app in Hin as [Hin|Hin].
    + apply (Hnone (task_id src)). by exists src.
    + by apply list_elem_of_singleton in Hin.
  - intros s [(-> & _ & Hin)|[_ He]]%edge_setNodeConnections;
      [|by apply (Hnone s)].
    apply list_elem_of_filter in Hin as [_ Hin].
    apply (Hnone (task_id src)). by exists src.
Qed.

(** X25.  Two invariants of the stored graph hold along any sequence of
    gestures: when no [nextTaskIds] holds an id twice, none does afterwards,
    and when no node points to itself, none does afterwards. *)
Theorem gestures_keep_edges_simple (gs : list Gesture) (v : View) :
  (lists_unique (tasks v) → lists_unique (tasks (handleAll gs v)))
  ∧ ((∀ s, ¬ edge (tasks v) s s) → ∀ s, ¬ edge (tasks (handleAll gs v)) s s).
Proof.
  unfold handleAll. revert v. induction gs as [|g gs IH]; intros v; [done|].
  simpl. destruct (IH (handle g v)) as [Hu Hs]. split.
  - intros H. by apply Hu, handle_unique.
  - intros H. by apply Hs, handle_no_self_loop.
Qed.

Lemma gestures_keep_edges_simple_witness :
  lists_unique
    (tasks (handleAll [StartConnection "A" (pointerAt 10 10); EndConnection "B";
                       StartConnection "A" (pointerAt 10 10); EndConnection "B"]
              sampleView)).
Proof.
  apply (gestures_keep_edges_simple
           [StartConnection "A" (pointerAt 10 10); EndConnection "B";
            StartConnection "A" (pointerAt 10 10); EndConnection "B"] sampleView).
  repeat constructor; simpl; apply NoDup_nil_2.
Defined.

Lemma handle_no_dangling (g : Gesture) (v : View) :
  no_dangling (tasks v) →
  (∀ b, g = EndConnection b → b ∈ task_id <$> tasks v) →
  no_dangling (tasks (handle g v)).
Proof.
  intros Hnd Hb s t. rewrite handle_ids.
  destruct (handle_tasks g v) as [|k p|src b Hg Hsrc Hne|src t' Hsrc].
  - apply Hnd.
  - rewrite updateNodePosition_edge. apply Hnd.
  - intros [(-> & _ & Hin)|[_ He]]%edge_setNodeConnections;
      [|by apply (Hnd s)].
    apply array_from_set_elem, elem_of_app in Hin as [Hin|Hin].
    + apply (Hnd (task_id src)). by exists src.
    + apply list_elem_of_singleton in Hin as ->. by apply Hb.
  - intros [(-> & _ & Hin)|[_ He]]%edge_setNodeConnections;
      [|by apply (Hnd s)].
    apply list_elem_of_filter in Hin as [_ Hin].
    apply (Hnd (task_id src)). by exists src.
Qed.

(** X26.  Gestures leave no dangling edge: when every edge ends at a node
    and every connect gesture of a sequence ends on the card of a node, every
    edge ends at a node after the sequence.  A connect is the only gesture
    that can add a target, and it does not check that the target exists. *)
Theorem gestures_keep_no_dangling (gs : list Gesture) (v : View) :
  no_dangling (tasks v) →
  (∀ b, b ∈ connectTargets gs → b ∈ task_id <$> tasks v) →
  no_dangling (tasks (handleAll gs v)).
Proof.
  unfold handleAll. revert v. induction gs as [|g gs IH]; intros v Hnd Hb;
    [done|].
  simpl. apply IH.
  - apply handle_no_dangling; [done|]. intros b ->. apply Hb. by left.
  - intros b Hin. rewrite handle_ids. apply Hb. simpl.
    apply elem_of_app. by right.
Qed.

Lemma gestures_keep_no_dangling_witness :
  no_dangling
    (tasks (handleAll [StartConnection "A" (pointerAt 10 10); EndConnection "B"]
              sampleView)).
Proof.
  apply (gestures_keep_no_dangling
           [StartConnection "A" (pointerAt 10 10); EndConnection "B"] sampleView).
  - intros s t (u & Hu & _ & Ht).
    apply elem_of_cons in Hu as [->|Hu]; [by apply elem_of_nil in Ht|].
    apply list_elem_of_singleton in Hu as ->. by apply elem_of_nil in Ht.
  - intros b Hb. apply list_elem_of_singleton in Hb as ->. by right; left.
Defined.
